(** * Graph subscription analyzer: a shallow embedding of
      [subscription_analyzer.py] and the properties of its retrying
      fetcher, its paginator, its application cache and its report.

    The methods of [GraphSubscriptionAnalyzer] are functions in a monad of
    state and exceptions over a [World]: the fields of [self], the network,
    and a log of the requests issued and of the sleeps performed.  The two
    [while] loops and the [for] loop are recursive functions named after what
    they iterate; the loop of the paginator takes fuel, since nothing in the
    code bounds the number of pages.  Authentication, [print] and the
    rendering of the report to the console and to a file are left out: they
    neither read nor change what is modelled.  JSON values are modelled at
    the types the Graph API gives them: records are objects with string
    values, ['value'] is an array of records, ['@odata.nextLink'] a string. *)

From Stdlib Require Import ZArith Lia Ascii String List Permutation Sorted.
From stdpp Require Import base option list strings gmap.

Local Open Scope string_scope.
Local Open Scope list_scope.
Local Open Scope Z_scope.

(** ** Python primitives used by the analyzer *)

Module Py.

(** [str.lower()] restricted to the ASCII letters.  The only strings that are
    searched for after lowering consist of ASCII letters, and no character
    outside ASCII lowers to a sequence ending in one of them followed by
    another ASCII letter, so the restriction does not change [needle in
    s.lower()]. *)
Definition lower_ascii (c : ascii) : ascii :=
  let n := N_of_ascii c in
  if ((65 <=? n) && (n <=? 90))%N then ascii_of_N (n + 32) else c.

Fixpoint lower (s : string) : string :=
  match s with
  | EmptyString => EmptyString
  | String c s' => String (lower_ascii c) (lower s')
  end.

(** [s.startswith(p)] *)
Fixpoint startswith (p s : string) : bool :=
  match p, s with
  | EmptyString, _ => true
  | String a p', String b s' => if Ascii.eqb a b then startswith p' s' else false
  | String _ _, EmptyString => false
  end.

(** [needle in hay] on strings. *)
Fixpoint contains (needle hay : string) : bool :=
  startswith needle hay ||
  match hay with
  | EmptyString => false
  | String _ hay' => contains needle hay'
  end.

(** Truthiness of a string: the empty string is falsy. *)
Definition truthy_str (s : string) : bool :=
  match s with EmptyString => false | _ => true end.

(** Truthiness of [None] or a string, as tested by [while url:] and
    [if retry_after:]. *)
Definition truthy (o : option string) : bool :=
  match o with None => false | Some s => truthy_str s end.

(** White space stripped by [int(str)]: tab to carriage return and the
    space, and of the characters above ASCII the next-line and no-break
    space characters.  The separators 28 to 31 are not stripped. *)
Definition is_space (c : ascii) : bool :=
  let n := N_of_ascii c in
  (((9 <=? n) && (n <=? 13)) || (n =? 32) || (n =? 133) || (n =? 160))%N.

Fixpoint lstrip (s : string) : string :=
  match s with
  | String c s' => if is_space c then lstrip s' else s
  | EmptyString => EmptyString
  end.

(** Removes trailing white space: a character is kept when something is kept
    to its right or when it is not white space itself. *)
Fixpoint rstrip (s : string) : string :=
  match s with
  | EmptyString => EmptyString
  | String c s' =>
      match rstrip s' with
      | EmptyString => if is_space c then EmptyString else String c EmptyString
      | r => String c r
      end
  end.

Definition digit_of (c : ascii) : option Z :=
  let n := N_of_ascii c in
  if ((48 <=? n) && (n <=? 57))%N then Some (Z.of_N (n - 48)) else None.

(** The digits of a decimal literal: a digit first, single underscores only
    between digits.  [count] is the number of digits read; more than 4300 of
    them are refused ([sys.int_max_str_digits]). *)
Fixpoint int_digits (s : string) (acc : Z) (after_digit : bool) (count : nat)
  : option Z :=
  match s with
  | EmptyString =>
      if after_digit && (count <=? 4300)%nat then Some acc else None
  | String c s' =>
      match digit_of c with
      | Some d => int_digits s' (10 * acc + d) true (S count)
      | None =>
          if Ascii.eqb c "_" && after_digit
          then int_digits s' acc false count
          else None
      end
  end.

(** [int(s)] for a string [s]; [None] when Python raises [ValueError]. *)
Definition int (s : string) : option Z :=
  match rstrip (lstrip s) with
  | String "-" body => Z.opp <$> int_digits body 0 false 0
  | String "+" body => int_digits body 0 false 0
  | body => int_digits body 0 false 0
  end.

End Py.

(** ** Data model *)

(** A JSON object whose values are strings: a subscription record or a
    service principal, as decoded by [response.json()].  A key that the
    server did not send has no entry. *)
Abbreviation pydict := (gmap string string).

(** [d.get(k, default)] *)
Definition dict_get_default (d : pydict) (k : string) (dflt : string) : string :=
  default dflt (d !! k).

(** The decoded body of a response: the ['value'] array and the
    ['@odata.nextLink'] field, each absent or present. *)
Record Body := mkBody {
  body_value : option (list pydict);
  body_nextLink : option string
}.

(** What the analyzer reads of a [requests.Response]. *)
Record Response := mkResponse {
  status_code : Z;
  retry_after : option string;   (* headers.get('Retry-After') *)
  text : string;
  json_body : option Body        (* None: response.json() raises *)
}.

(** A GET request as issued through [requests.get]. *)
Record Request := mkRequest {
  req_url : string;
  req_headers : list (string * string);
  req_params : option (list (string * string))
}.

(** What the network answers to a request: a response, or a transport
    failure that [requests] raises as a [RequestException]. *)
Inductive Reply :=
| Answer (r : Response)
| TransportFailure (e : string).

(** Exceptions, with the data their message is built from. *)
Inductive exn :=
| RequestException (e : string)
| MaxRetriesExceeded (max_retries : Z) (url : string)
| NetworkErrorAfterRetries (max_retries : Z) (e : string)
| RequestFailedAfterRetries (max_retries : Z)
| FailedToFetchSubscriptions (status : Z) (body : string)
| JSONDecodeError
| SleepValueError.

(** [except requests.exceptions.RequestException] *)
Definition is_RequestException (e : exn) : option string :=
  match e with RequestException m => Some m | _ => None end.

(** An entry of [self.app_details]. *)
Record AppInfo := mkAppInfo {
  info_displayName : string;
  info_appId : string;
  info_servicePrincipalId : option string
}.

(** One subscription as copied into a report. *)
Record SubEntry := mkSubEntry {
  entry_id : option string;
  entry_resource : option string;
  entry_changeType : option string;
  entry_expirationDateTime : option string;
  entry_notificationUrl : option string;
  entry_clientState : option string
}.

(** One application of a report with its subscriptions. *)
Record AppGroup := mkAppGroup {
  group_applicationId : string;
  group_displayName : string;
  group_servicePrincipalId : option string;
  group_subscriptions : list SubEntry
}.

Record Report := mkReport {
  generatedAt : string;
  totalSubscriptions : nat;
  transcriptSubscriptions : nat;
  reportedSubscriptions : nat;
  uniqueApplications : nat;
  applications : list AppGroup
}.

(** The analyzer object together with the world it acts on: the network
    (the reply to the [n]-th request of the run), the requests issued and
    the sleeps performed so far, the clock, and the fields of [self]. *)
Record World := mkWorld {
  net : nat -> Request -> Reply;
  requests_log : list Request;
  sleeps_log : list Z;
  utcnow : string;
  access_token : string;
  subscriptions : list pydict;
  app_details : gmap string AppInfo
}.

Definition log_request (rq : Request) (w : World) : World :=
  mkWorld (net w) (requests_log w ++ [rq]) (sleeps_log w) (utcnow w)
          (access_token w) (subscriptions w) (app_details w).

Definition log_sleep (secs : Z) (w : World) : World :=
  mkWorld (net w) (requests_log w) (sleeps_log w ++ [secs]) (utcnow w)
          (access_token w) (subscriptions w) (app_details w).

Definition set_subscriptions (subs : list pydict) (w : World) : World :=
  mkWorld (net w) (requests_log w) (sleeps_log w) (utcnow w)
          (access_token w) subs (app_details w).

Definition set_app_details (m : gmap string AppInfo) (w : World) : World :=
  mkWorld (net w) (requests_log w) (sleeps_log w) (utcnow w)
          (access_token w) (subscriptions w) m.

(** ** Computations: state, exceptions and loop fuel *)

Inductive result (A : Type) :=
| Ret (a : A)
| Raise (e : exn)
| OutOfFuel.
Arguments Ret {A} a.
Arguments Raise {A} e.
Arguments OutOfFuel {A}.

Definition M (A : Type) : Type := World -> result A * World.

Definition ret {A} (a : A) : M A := fun w => (Ret a, w).
Definition raise {A} (e : exn) : M A := fun w => (Raise e, w).
Definition out_of_fuel {A} : M A := fun w => (OutOfFuel, w).

Definition bind {A B} (m : M A) (k : A -> M B) : M B :=
  fun w =>
    match m w with
    | (Ret a, w') => k a w'
    | (Raise e, w') => (Raise e, w')
    | (OutOfFuel, w') => (OutOfFuel, w')
    end.

(** [try: body except <class> as e: handler]: [catches] selects the
    exceptions of the class.  Effects of [body] before the exception stay. *)
Definition try_except {A E} (body : M A) (catches : exn -> option E)
           (handler : E -> M A) : M A :=
  fun w =>
    match body w with
    | (Raise e, w') =>
        match catches e with
        | Some x => handler x w'
        | None => (Raise e, w')
        end
    | r => r
    end.

Definition get_self {A} (field : World -> A) : M A := fun w => (Ret (field w), w).
Definition modify (f : World -> World) : M unit := fun w => (Ret tt, f w).

Declare Scope py_scope.
Delimit Scope py_scope with py.
Notation "x <- c ;; k" := (bind c (fun x => k))
  (at level 100, c at next level, right associativity) : py_scope.
Notation "c ;;; k" := (bind c (fun _ => k))
  (at level 100, right associativity) : py_scope.
Local Open Scope py_scope.

(** [requests.get(url, headers=headers, params=params)] *)
Definition requests_get (url : string) (headers : list (string * string))
           (params : option (list (string * string))) : M Response :=
  fun w =>
    let rq := mkRequest url headers params in
    let w' := log_request rq w in
    match net w (length (requests_log w)) rq with
    | Answer r => (Ret r, w')
    | TransportFailure e => (Raise (RequestException e), w')
    end.

(** [time.sleep(secs)]: a negative length is refused with an exception
    ([ValueError]; [OverflowError] for a length beyond the range of a C
    timestamp) and no time is spent. *)
Definition time_sleep (secs : Z) : M unit :=
  if secs <? 0 then raise SleepValueError else modify (log_sleep secs).

(** [response.json()] *)
Definition response_json (r : Response) : M Body :=
  match json_body r with
  | Some b => ret b
  | None => raise JSONDecodeError
  end.

Definition graph_endpoint : string := "https://graph.microsoft.com/v1.0".

Definition auth_headers (token : string) : list (string * string) :=
  [("Authorization", "Bearer " +:+ token); ("Content-Type", "application/json")].

(** ** The retrying fetcher *)

(** How one pass through the body of a [while] loop ends. *)
Inductive ctrl (A S : Type) :=
| Return (a : A)
| Continue (s : S).
Arguments Return {A S} a.
Arguments Continue {A S} s.

Definition base_delay : Z := 1.

(** The wait computed for a 429 or 503 response. *)
Definition throttle_wait (retry_after : option string) (retry_count : Z) : Z :=
  let wait_time :=
    if Py.truthy retry_after then
      match Py.int (default "" retry_after) with
      | Some n => n
      | None => base_delay * 2 ^ (retry_count - 1)
      end
    else base_delay * 2 ^ (retry_count - 1) in
  Z.min wait_time 120.

(** The wait computed after a transport failure. *)
Definition network_wait (retry_count : Z) : Z :=
  Z.min (base_delay * 2 ^ (retry_count - 1)) 120.

(** One pass through the body of the [while] loop of
    [_make_graph_request_with_retry], entered with [retry_count]. *)
Definition attempt (url : string) (headers : list (string * string))
           (params : option (list (string * string))) (max_retries : Z)
           (retry_count : Z) : M (ctrl Response Z) :=
  try_except
    (response <- requests_get url headers params ;;
     if status_code response =? 200 then ret (Return response)
     else if (status_code response =? 429) || (status_code response =? 503) then
       let retry_count := retry_count + 1 in
       if retry_count >? max_retries then
         raise (MaxRetriesExceeded max_retries url)
       else
         let wait_time := throttle_wait (retry_after response) retry_count in
         time_sleep wait_time ;;;
         ret (Continue retry_count)
     else ret (Return response))
    is_RequestException
    (fun e =>
       let retry_count := retry_count + 1 in
       if retry_count >? max_retries then
         raise (NetworkErrorAfterRetries max_retries e)
       else
         let wait_time := network_wait retry_count in
         time_sleep wait_time ;;;
         ret (Continue retry_count)).

Fixpoint retry_loop (fuel : nat) (url : string) (headers : list (string * string))
         (params : option (list (string * string))) (max_retries : Z)
         (retry_count : Z) : M Response :=
  if retry_count <=? max_retries then
    match fuel with
    | O => out_of_fuel
    | S fuel' =>
        c <- attempt url headers params max_retries retry_count ;;
        match c with
        | Return response => ret response
        | Continue retry_count' =>
            retry_loop fuel' url headers params max_retries retry_count'
        end
    end
  else raise (RequestFailedAfterRetries max_retries).

(** Every pass that continues has increased [retry_count], so the loop runs
    at most [max_retries + 1] times. *)
Definition _make_graph_request_with_retry (url : string)
           (headers : list (string * string))
           (params : option (list (string * string))) (max_retries : Z)
  : M Response :=
  retry_loop (Z.to_nat (max_retries + 1)) url headers params max_retries 0.

Definition default_max_retries : Z := 8.

(** ** The paginator *)

(** The [while url:] loop of [get_all_subscriptions].  [fuel] bounds the
    number of pages requested: a server may send continuation links for
    ever. *)
Fixpoint pages_loop (fuel : nat) (headers : list (string * string))
         (url : option string) (all_subscriptions : list pydict)
  : M (list pydict) :=
  if Py.truthy url then
    match fuel with
    | O => out_of_fuel
    | S fuel' =>
        response <- requests_get (default "" url) headers None ;;
        if negb (status_code response =? 200) then
          raise (FailedToFetchSubscriptions (status_code response) (text response))
        else
          data <- response_json response ;;
          let subscriptions := default [] (body_value data) in
          let all_subscriptions := all_subscriptions ++ subscriptions in
          pages_loop fuel' headers (body_nextLink data) all_subscriptions
    end
  else ret all_subscriptions.

Definition subscriptions_url : string := graph_endpoint +:+ "/subscriptions".

Definition get_all_subscriptions (fuel : nat) : M (list pydict) :=
  token <- get_self access_token ;;
  let headers := auth_headers token in
  all_subscriptions <- pages_loop fuel headers (Some subscriptions_url) [] ;;
  modify (set_subscriptions all_subscriptions) ;;;
  ret all_subscriptions.

(** ** The application resolver *)

Definition service_principals_url : string := graph_endpoint +:+ "/servicePrincipals".

Definition lookup_params (app_id : string) : list (string * string) :=
  [("$filter", "appId eq '" +:+ app_id +:+ "'"); ("$select", "displayName,appId,id")].

Definition not_found_info (app_id : string) : AppInfo :=
  mkAppInfo "Unknown (Not found in tenant)" app_id None.

Definition error_info (app_id : string) : AppInfo :=
  mkAppInfo "Error fetching details" app_id None.

Definition store_app_details (app_id : string) (info : AppInfo) : M unit :=
  modify (fun w => set_app_details (<[app_id := info]> (app_details w)) w).

(** The body of the [try] of [get_application_details]. *)
Definition lookup_application (app_id : string) : M AppInfo :=
  token <- get_self access_token ;;
  let headers := auth_headers token in
  response <- _make_graph_request_with_retry service_principals_url headers
                (Some (lookup_params app_id)) default_max_retries ;;
  found <- (if status_code response =? 200 then
              data <- response_json response ;;
              match body_value data with
              | Some (sp :: _) =>
                  let app_info :=
                    mkAppInfo (dict_get_default sp "displayName" "Unknown")
                              app_id (sp !! "id") in
                  store_app_details app_id app_info ;;;
                  ret (Some app_info)
              | _ => ret None
              end
            else ret None) ;;
  match found with
  | Some app_info => ret app_info
  | None =>
      store_app_details app_id (not_found_info app_id) ;;;
      ret (not_found_info app_id)
  end.

Definition get_application_details (app_id : string) : M AppInfo :=
  cache <- get_self app_details ;;
  match cache !! app_id with
  | Some info => ret info
  | None =>
      try_except (lookup_application app_id)
                 (fun e => Some e)
                 (fun _ => ret (error_info app_id))
  end.

(** ** The transcript filter *)

Definition is_transcript_resource (resource : string) : bool :=
  Py.contains "transcript" (Py.lower resource)
  || Py.contains "communications/onlineMeetings" resource.

Definition is_transcript_subscription (sub : pydict) : bool :=
  is_transcript_resource (dict_get_default sub "resource" "").

Definition filter_transcript_subscriptions : M (list pydict) :=
  subs <- get_self subscriptions ;;
  ret (List.filter is_transcript_subscription subs).

(** ** The report *)

(** [apps_map]: a dictionary whose order of insertion matters, since
    [list(apps_map.values())] lists the groups in that order. *)
Abbreviation odict := (list (string * AppGroup)).

Fixpoint odict_mem (k : string) (d : odict) : bool :=
  match d with
  | [] => false
  | (k', _) :: d' => if String.eqb k k' then true else odict_mem k d'
  end.

(** [d[k] = v] *)
Fixpoint odict_set (k : string) (v : AppGroup) (d : odict) : odict :=
  match d with
  | [] => [(k, v)]
  | (k', v') :: d' =>
      if String.eqb k k' then (k', v) :: d' else (k', v') :: odict_set k v d'
  end.

Definition append_subscription (e : SubEntry) (g : AppGroup) : AppGroup :=
  mkAppGroup (group_applicationId g) (group_displayName g)
             (group_servicePrincipalId g) (group_subscriptions g ++ [e]).

(** [d[k]['subscriptions'].append(e)] for a key that is present. *)
Fixpoint odict_append (k : string) (e : SubEntry) (d : odict) : odict :=
  match d with
  | [] => []
  | (k', g) :: d' =>
      if String.eqb k k' then (k', append_subscription e g) :: d'
      else (k', g) :: odict_append k e d'
  end.

Definition odict_values (d : odict) : list AppGroup := map snd d.

Definition entry_of (sub : pydict) : SubEntry :=
  mkSubEntry (sub !! "id") (sub !! "resource") (sub !! "changeType")
             (sub !! "expirationDateTime") (sub !! "notificationUrl")
             (sub !! "clientState").

(** The [for] loop of [generate_report] over [subs_to_process]. *)
Fixpoint group_loop (subs : list pydict) (apps_map : odict) : M odict :=
  match subs with
  | [] => ret apps_map
  | sub :: rest =>
      let app_id := dict_get_default sub "applicationId" "Unknown" in
      apps_map <- (if negb (odict_mem app_id apps_map) then
                     app_details <- get_application_details app_id ;;
                     ret (odict_set app_id
                            (mkAppGroup app_id (info_displayName app_details)
                               (info_servicePrincipalId app_details) [])
                            apps_map)
                   else ret apps_map) ;;
      group_loop rest (odict_append app_id (entry_of sub) apps_map)
  end.

Definition subscription_count (g : AppGroup) : nat :=
  length (group_subscriptions g).

(** [l.sort(key=..., reverse=True)]: Python's sort is stable, also with
    [reverse=True], so the result is the only arrangement of [l] with
    non-increasing keys in which elements of equal key keep their order;
    inserting from the right computes it. *)
Fixpoint insert_desc {A} (key : A -> nat) (x : A) (l : list A) : list A :=
  match l with
  | [] => [x]
  | y :: l' =>
      if (key x <? key y)%nat then y :: insert_desc key x l'
      else x :: y :: l'
  end.

Fixpoint sort_reverse {A} (key : A -> nat) (l : list A) : list A :=
  match l with
  | [] => []
  | x :: l' => insert_desc key x (sort_reverse key l')
  end.

(** [generate_report], up to the report it returns; printing it and saving
    it to a file do not change it. *)
Definition generate_report (filter_transcripts : bool) : M Report :=
  sel <- (if filter_transcripts then
            subs_to_process <- filter_transcript_subscriptions ;;
            ret (subs_to_process, length subs_to_process)
          else
            subs_to_process <- get_self subscriptions ;;
            transcript_subs <- filter_transcript_subscriptions ;;
            ret (subs_to_process, length transcript_subs)) ;;
  let subs_to_process := fst sel in
  let transcript_count := snd sel in
  apps_map <- group_loop subs_to_process [] ;;
  now <- get_self utcnow ;;
  all <- get_self subscriptions ;;
  ret (mkReport (now +:+ "Z") (length all) transcript_count
                (length subs_to_process) (length apps_map)
                (sort_reverse subscription_count (odict_values apps_map))).


(** ** Definitions used to state the properties *)

(** The network that answers the [n]-th request of the run with the [n]-th
    reply of [script], whatever is asked, and fails once the script is
    over. *)
Definition scripted (script : list Reply) : nat -> Request -> Reply :=
  fun n _ => nth n script (TransportFailure "connection closed").

Definition fresh_world (script : list Reply) : World :=
  mkWorld (scripted script) [] [] "2024-01-01T00:00:00" "token" [] ∅.

Definition throttled_reply (status : Z) (retry_after : option string) : Reply :=
  Answer (mkResponse status retry_after "" None).

Definition ok_reply (b : Body) : Reply :=
  Answer (mkResponse 200 None "" (Some b)).

Definition is_throttle (status : Z) : bool := (status =? 429) || (status =? 503).

Definition found_info (app_id : string) (sp : pydict) : AppInfo :=
  mkAppInfo (dict_get_default sp "displayName" "Unknown") app_id (sp !! "id").

Definition cache_store (app_id : string) (info : AppInfo) (w : World) : World :=
  set_app_details (<[app_id := info]> (app_details w)) w.

(** The single call of the fetcher made by a lookup. *)
Definition lookup_fetch (app_id : string) (w : World) : result Response * World :=
  _make_graph_request_with_retry service_principals_url
    (auth_headers (access_token w)) (Some (lookup_params app_id))
    default_max_retries w.

Definition odict_keys (d : odict) : list string := map fst d.

Definition total_count (groups : list AppGroup) : nat :=
  list_sum (map subscription_count groups).

(** One pass through the body of the [for] loop. *)
Definition group_step (sub : pydict) (apps_map : odict) : M odict :=
  group_loop [sub] apps_map.

(** The records a report is made from. *)
Definition subs_to_process (filter_transcripts : bool) (w : World) : list pydict :=
  if filter_transcripts
  then List.filter is_transcript_subscription (subscriptions w)
  else subscriptions w.

(** Non-increasing keys. *)
Definition desc {A} (key : A -> nat) (x y : A) : Prop := (key y <= key x)%nat.

(** The elements of key [c], in their order in the list. *)
Definition with_key {A} (key : A -> nat) (c : nat) (l : list A) : list A :=
  List.filter (fun x => (key x =? c)%nat) l.

(** The application a subscription record belongs to, as the report sees
    it. *)
Definition owner (sub : pydict) : string :=
  dict_get_default sub "applicationId" "Unknown".

(** The distinct elements of a list, in the order of their first
    occurrence. *)
Fixpoint first_seen (ids : list string) : list string :=
  match ids with
  | [] => []
  | x :: l => x :: List.filter (fun y => negb (String.eqb x y)) (first_seen l)
  end.

(** The records of an application, in input order. *)
Definition owned_by (app_id : string) (subs : list pydict) : list pydict :=
  List.filter (fun sub => String.eqb (owner sub) app_id) subs.

(** A group holds the records of its own application, in input order. *)
Definition holds_records (subs : list pydict) (g : AppGroup) : Prop :=
  group_subscriptions g = map entry_of (owned_by (group_applicationId g) subs).

(** The dictionary of groups after the records [done] have been processed. *)
Definition grouped (done : list pydict) (d : odict) : Prop :=
  odict_keys d = first_seen (map owner done)
  /\ Forall (fun p => group_applicationId (snd p) = fst p
                      /\ holds_records done (snd p)) d.

(** The resource path of a subscription record; a record without one has
    the empty path. *)
Definition resource_of (sub : pydict) : string :=
  dict_get_default sub "resource" "".

(** A resource path matches when some part of it spells "transcript" in any
    mix of cases, or when it has "communications/onlineMeetings" as a part,
    letter for letter. *)
Definition TranscriptMatch (resource : string) : Prop :=
  (exists pre mid post,
      resource = pre +:+ mid +:+ post /\ Py.lower mid = "transcript")
  \/ (exists pre post,
      resource = pre +:+ "communications/onlineMeetings" +:+ post).

(** The request the paginator issues for a page. *)
Definition page_request (token : string) (url : option string) : Request :=
  mkRequest (default "" url) (auth_headers token) None.

(** The items a page contributes. *)
Definition page_items (page : Body) : list pydict := default [] (body_value page).

(** A page carries a continuation link when the loop goes on after it. *)
Definition has_next (page : Body) : bool := Py.truthy (body_nextLink page).

(** The network serves [pages] one after the other from request number [n]
    on: each request, made to the link of the page before, is answered with
    status 200 and the next page as its body. *)
Fixpoint serves (net : nat -> Request -> Reply) (token : string) (n : nat)
         (url : option string) (pages : list Body) : Prop :=
  match pages with
  | [] => True
  | page :: rest =>
      (exists r, net n (page_request token url) = Answer r
                 /\ status_code r = 200 /\ json_body r = Some page)
      /\ serves net token (S n) (body_nextLink page) rest
  end.

(** The link to follow after [pages]. *)
Fixpoint link_after (url : option string) (pages : list Body) : option string :=
  match pages with
  | [] => url
  | page :: rest => link_after (body_nextLink page) rest
  end.

(** The requests made to retrieve [pages]. *)
Fixpoint page_requests (token : string) (url : option string)
         (pages : list Body) : list Request :=
  match pages with
  | [] => []
  | page :: rest =>
      page_request token url :: page_requests token (body_nextLink page) rest
  end.

Definition log_requests (rqs : list Request) (w : World) : World :=
  mkWorld (net w) (requests_log w ++ rqs) (sleeps_log w) (utcnow w)
          (access_token w) (subscriptions w) (app_details w).

(** A reply that makes a page request fail, and the exception that the
    paginator then raises. *)
Definition page_fails (reply : Reply) : bool :=
  match reply with
  | TransportFailure _ => true
  | Answer r =>
      negb (status_code r =? 200)
      || match json_body r with None => true | Some _ => false end
  end.

Definition page_error (reply : Reply) : exn :=
  match reply with
  | TransportFailure e => RequestException e
  | Answer r =>
      if negb (status_code r =? 200)
      then FailedToFetchSubscriptions (status_code r) (text r)
      else JSONDecodeError
  end.

(** Two pages of subscriptions, the first linking to the second, and a world
    whose network serves them. *)
Definition example_page1 : Body :=
  mkBody (Some [ {[ "id" := "s1"; "applicationId" := "app-a"; "resource" := "/users/1/drive" ]};
                 {[ "id" := "s2"; "applicationId" := "app-b";
                    "resource" := "/communications/onlineMeetings('x')" ]} ])
         (Some "https://graph.microsoft.com/v1.0/subscriptions?$skiptoken=1").

Definition example_page2 : Body :=
  mkBody (Some [ {[ "id" := "s3"; "applicationId" := "app-b";
                    "resource" := "/communications/onlineMeetings('x')/transcripts('y')" ]} ])
         None.

Definition two_pages_world : World :=
  fresh_world [ok_reply example_page1; ok_reply example_page2].

(** A world whose network throttles the first request for one second and
    then serves a page. *)
Definition throttled_once_world : World :=
  fresh_world [throttled_reply 429 (Some "1"); ok_reply example_page2].

(** A world whose network serves a first page and then refuses the second
    with status 500. *)
Definition broken_second_page_world : World :=
  fresh_world [ok_reply example_page1;
               Answer (mkResponse 500 None "Internal Server Error" None)].

(** A service principal as the lookup endpoint returns it. *)
Definition contoso_principal : pydict :=
  {[ "displayName" := "Contoso"; "appId" := "app-a"; "id" := "sp-1" ]}.

(** A world whose network throttles nine requests in a row, which exhausts
    the budget of one lookup, and then answers with a service principal. *)
Definition flaky_lookup_world : World :=
  fresh_world (repeat (throttled_reply 429 None) 9
               ++ [ok_reply (mkBody (Some [contoso_principal]) None)]).

(** A world whose network refuses the lookup with status 403. *)
Definition forbidden_lookup_world : World :=
  fresh_world [Answer (mkResponse 403 None "Forbidden" None)].

(** Resolving [app_id] twice in a row from [w]: the second resolution gives
    the value of the first and issues no request. *)
Definition resolves_once (w : World) (app_id : string) : Prop :=
  let first := get_application_details app_id w in
  let second := get_application_details app_id (snd first) in
  fst second = fst first
  /\ requests_log (snd second) = requests_log (snd first).

(** The world after the requests [rqs] and the waits [waits]. *)
Definition log_traffic (rqs : list Request) (waits : list Z) (w : World) : World :=
  mkWorld (net w) (requests_log w ++ rqs) (sleeps_log w ++ waits) (utcnow w)
          (access_token w) (subscriptions w) (app_details w).

(** The wait before retry number [attempt_no], in the words of the
    specification: the Retry-After value when it reads as an integer, the
    exponential backoff otherwise, at most 120 seconds in both cases. *)
Definition policy_wait (retry_after : option string) (attempt_no : Z) : Z :=
  match retry_after ≫= Py.int with
  | Some seconds => Z.min seconds 120
  | None => Z.min (1 * 2 ^ (attempt_no - 1)) 120
  end.

(** The waits of [k] retries under exponential backoff alone. *)
Definition backoff_waits (k : nat) : list Z :=
  map (fun i => Z.min (2 ^ Z.of_nat i) 120) (seq 0 k).

(** The first pass of a fetch from [w] honours an integer Retry-After: it
    waits that many seconds, at most 120, and goes on to retry. *)
Definition honours_retry_after (w : World) (url : string)
           (headers : list (string * string))
           (params : option (list (string * string))) (max_retries : Z) : Prop :=
  forall r s n,
    net w (length (requests_log w)) (mkRequest url headers params) = Answer r ->
    is_throttle (status_code r) = true ->
    retry_after r = Some s ->
    Py.int s = Some n ->
    1 <= max_retries ->
    attempt url headers params max_retries 0 w =
    (Ret (Continue 1),
     log_sleep (Z.min n 120) (log_request (mkRequest url headers params) w)).

(** Worlds whose network throttles the first request with a Retry-After of
    5 seconds, and of -5 seconds. *)
Definition retry_after_5_world : World :=
  fresh_world [throttled_reply 429 (Some "5"); ok_reply example_page2].

Definition negative_retry_after_world : World :=
  fresh_world [throttled_reply 429 (Some "-5"); ok_reply example_page2].

(** A world whose network answers four requests with [status] and no
    Retry-After. *)
Definition exhausted_world (status : Z) : World :=
  fresh_world (repeat (throttled_reply status None) 4).

(** The exception raised when the budget is exceeded tells the status of the
    last response. *)
Definition exhaustion_carries_status : Prop :=
  exists status_of : exn -> Z,
    forall status e w',
      is_throttle status = true ->
      _make_graph_request_with_retry "https://example.test/" [] None 3
        (exhausted_world status) = (Raise e, w') ->
      status_of e = status.

(** A world holding nine subscriptions of four applications, first seen in
    the order a, b, c, d with 3, 1, 3 and 2 subscriptions, whose network
    finds no service principal for any of them. *)
Definition sub_of (app_id : string) : pydict := {[ "applicationId" := app_id ]}.

Definition four_apps_world : World :=
  mkWorld (scripted (repeat (ok_reply (mkBody (Some []) None)) 4)) [] []
          "2024-01-01T00:00:00" "token"
          (map sub_of ["a"; "b"; "c"; "a"; "d"; "c"; "a"; "d"; "c"]) ∅.

(** ** Definitions used to state further properties of the code *)

(** The network gives [replies], in this order, to the request [rq] asked
    again and again from request number [n] on. *)
Fixpoint answers (net : nat -> Request -> Reply) (n : nat) (rq : Request)
         (replies : list Reply) : Prop :=
  match replies with
  | [] => True
  | reply :: rest => net n rq = reply /\ answers net (S n) rq rest
  end.

(** The wait the fetcher computes after [reply], when [reply] is the
    [attempt_no]-th reply of the call that asks for a retry. *)
Definition reply_wait (reply : Reply) (attempt_no : Z) : Z :=
  match reply with
  | Answer r => throttle_wait (retry_after r) attempt_no
  | TransportFailure _ => network_wait attempt_no
  end.

(** A reply after which the fetcher waits and asks again, budget allowing:
    a transport failure, or a 429 or 503 whose wait is not negative. *)
Definition asks_retry (reply : Reply) (attempt_no : Z) : bool :=
  match reply with
  | Answer r =>
      is_throttle (status_code r)
      && (0 <=? throttle_wait (retry_after r) attempt_no)
  | TransportFailure _ => true
  end.

Fixpoint all_ask_retry (replies : list Reply) (attempt_no : Z) : bool :=
  match replies with
  | [] => true
  | reply :: rest =>
      asks_retry reply attempt_no && all_ask_retry rest (attempt_no + 1)
  end.

(** The waits after [replies], the first of which is retry number
    [attempt_no]. *)
Fixpoint run_waits (replies : list Reply) (attempt_no : Z) : list Z :=
  match replies with
  | [] => []
  | reply :: rest =>
      reply_wait reply attempt_no :: run_waits rest (attempt_no + 1)
  end.

(** What the outcome [res] of a fetch entered at [retry_count] tells, when
    the fetch made [n] requests and the waits [waits], about the last reply
    it received. *)
Definition fetch_verdict (w : World) (rq : Request) (max_retries retry_count : Z)
           (res : result Response) (n : nat) (waits : list Z) : Prop :=
  let last := net w (length (requests_log w) + length waits) rq in
  match res with
  | Ret r =>
      n = S (length waits) /\ last = Answer r
      /\ is_throttle (status_code r) = false
  | Raise (MaxRetriesExceeded m u) =>
      m = max_retries /\ u = req_url rq /\ n = S (length waits)
      /\ retry_count + Z.of_nat n = max_retries + 1
      /\ exists r, last = Answer r /\ is_throttle (status_code r) = true
  | Raise (NetworkErrorAfterRetries m e) =>
      m = max_retries /\ n = S (length waits)
      /\ retry_count + Z.of_nat n = max_retries + 1
      /\ last = TransportFailure e
  | Raise SleepValueError =>
      n = S (length waits)
      /\ exists r, last = Answer r /\ is_throttle (status_code r) = true
                   /\ throttle_wait (retry_after r) (retry_count + Z.of_nat n) < 0
  | Raise (RequestFailedAfterRetries m) =>
      m = max_retries /\ n = 0%nat /\ waits = [] /\ max_retries < retry_count
  | Raise _ => False
  | OutOfFuel => False
  end.

(** A world whose network fails, throttles with and without Retry-After, and
    then answers. *)
Definition bumpy_replies : list Reply :=
  [throttled_reply 429 (Some "3"); TransportFailure "connection reset";
   throttled_reply 503 None].

Definition bumpy_world : World :=
  fresh_world (bumpy_replies ++ [ok_reply example_page2]).

(** A world whose network fails every request of one fetch with budget 2. *)
Definition unreachable_world : World :=
  fresh_world [TransportFailure "timeout 1"; TransportFailure "timeout 2";
               TransportFailure "timeout 3"].

(** A page that links to itself, and a world whose network answers every
    request with it. *)
Definition looping_page : Body :=
  mkBody (Some [ {[ "id" := "s1"; "applicationId" := "app-a" ]} ])
         (Some "https://graph.microsoft.com/v1.0/subscriptions").

Definition looping_world : World :=
  mkWorld (fun _ _ => ok_reply looping_page) [] [] "2024-01-01T00:00:00"
          "token" [] ∅.

(** The request a lookup of [app_id] sends. *)
Definition lookup_request (token app_id : string) : Request :=
  mkRequest service_principals_url (auth_headers token)
            (Some (lookup_params app_id)).

(** Every entry of the cache is stored under its own application id. *)
Definition cache_keyed (w : World) : Prop :=
  forall k info, app_details w !! k = Some info -> info_appId info = k.

(** A world whose lookup is answered 200 with two service principals, the
    first of which has no display name. *)
Definition nameless_principal : pydict := {[ "id" := "sp-9" ]}.

Definition two_matches_world : World :=
  fresh_world [ok_reply (mkBody (Some [nameless_principal; contoso_principal])
                                None)].

(** The group of [app_id] over the records [subs], named after what [cache]
    holds for the application, or after the error placeholder when it holds
    nothing. *)
Definition group_for (cache : gmap string AppInfo) (subs : list pydict)
           (app_id : string) : AppGroup :=
  let info := default (error_info app_id) (cache !! app_id) in
  mkAppGroup app_id (info_displayName info) (info_servicePrincipalId info)
             (map entry_of (owned_by app_id subs)).

(** The names of the groups of [d] are those that the cache of [w] holds. *)
Definition named (w : World) (d : odict) : Prop :=
  Forall (fun p =>
            let info := default (error_info (fst p)) (app_details w !! fst p) in
            group_displayName (snd p) = info_displayName info
            /\ group_servicePrincipalId (snd p) = info_servicePrincipalId info)
         d.

(** A world that has listed the pages of [two_pages_world] and whose network
    then finds "Contoso" for the first application looked up and nothing for
    the second. *)
Definition listed_world : World :=
  mkWorld (scripted [ok_reply (mkBody (Some [contoso_principal]) None);
                     ok_reply (mkBody (Some []) None)])
          [] [] "2024-01-01T00:00:00" "token"
          (page_items example_page1 ++ page_items example_page2) ∅.

(** The report read off the outcome of [generate_report]. *)
Definition report_of (outcome : result Report * World) : Report :=
  match fst outcome with
  | Ret report => report
  | _ => mkReport "" 0 0 0 0 []
  end.

Definition listed_report : Report :=
  report_of (generate_report false listed_world).

Example int_5 : Py.int "5" = Some 5.
Proof. reflexivity. Qed.
Example int_padded : Py.int " +1_000 " = Some 1000.
Proof. reflexivity. Qed.
Example int_neg : Py.int "-5" = Some (-5).
Proof. reflexivity. Qed.
Example int_date : Py.int "Wed, 21 Oct 2015 07:28:00 GMT" = None.
Proof. reflexivity. Qed.
Example int_separator :
  Py.int (String "028"%char "5") = None /\ Py.int (String "5"%char (String "031"%char "")) = None
  /\ Py.int (String "009"%char "5") = Some 5 /\ Py.int (String "160"%char "5") = Some 5.
Proof. repeat split; reflexivity. Qed.
Example int_bad_underscore : Py.int "1__0" = None /\ Py.int "_1" = None /\ Py.int "1_" = None /\ Py.int "" = None.
Proof. repeat split; reflexivity. Qed.

(** ** Worlds for examples: a scripted network *)

(** ** Facts about the fetcher *)

Lemma pow2_wait_nonneg (k : Z) : 0 <= Z.min (base_delay * 2 ^ k) 120.
Proof.
  unfold base_delay. apply Z.min_glb; [|lia].
  rewrite Z.mul_1_l. apply Z.pow_nonneg. lia.
Qed.

Lemma network_wait_nonneg (k : Z) : 0 <= network_wait k.
Proof. apply pow2_wait_nonneg. Qed.

(** One pass through the loop body, case by case. *)
Lemma attempt_eq url headers params max_retries retry_count w :
  let rq := mkRequest url headers params in
  let w1 := log_request rq w in
  attempt url headers params max_retries retry_count w =
  match net w (length (requests_log w)) rq with
  | Answer r =>
      if status_code r =? 200 then (Ret (Return r), w1)
      else if is_throttle (status_code r) then
        if retry_count + 1 >? max_retries
        then (Raise (MaxRetriesExceeded max_retries url), w1)
        else
          let t := throttle_wait (retry_after r) (retry_count + 1) in
          if t <? 0 then (Raise SleepValueError, w1)
          else (Ret (Continue (retry_count + 1)), log_sleep t w1)
      else (Ret (Return r), w1)
  | TransportFailure e =>
      if retry_count + 1 >? max_retries
      then (Raise (NetworkErrorAfterRetries max_retries e), w1)
      else (Ret (Continue (retry_count + 1)),
            log_sleep (network_wait (retry_count + 1)) w1)
  end.
Proof.
  intros rq w1. unfold attempt, try_except, bind, requests_get, is_throttle.
  fold rq. fold w1.
  destruct (net w (length (requests_log w)) rq) as [r|e]; simpl.
  - destruct (status_code r =? 200); [reflexivity|].
    destruct ((status_code r =? 429) || (status_code r =? 503)); [|reflexivity].
    destruct (retry_count + 1 >? max_retries); [reflexivity|].
    unfold time_sleep, bind.
    destruct (throttle_wait (retry_after r) (retry_count + 1) <? 0); reflexivity.
  - destruct (retry_count + 1 >? max_retries); [reflexivity|].
    unfold time_sleep, bind.
    pose proof (network_wait_nonneg (retry_count + 1)) as Hn.
    destruct (network_wait (retry_count + 1) <? 0) eqn:E; [lia|reflexivity].
Qed.

(** A pass never runs out of fuel, and it continues only within the
    budget. *)
Lemma attempt_cases url headers params max_retries retry_count w :
  (exists r w', attempt url headers params max_retries retry_count w
                = (Ret (Return r), w'))
  \/ (exists w', attempt url headers params max_retries retry_count w
                 = (Ret (Continue (retry_count + 1)), w')
                 /\ retry_count + 1 <= max_retries)
  \/ (exists e w', attempt url headers params max_retries retry_count w
                   = (Raise e, w')).
Proof.
  rewrite attempt_eq.
  destruct (net w _ _) as [r|e].
  - destruct (status_code r =? 200); [left; eauto|].
    destruct (is_throttle (status_code r)); [|left; eauto].
    destruct (retry_count + 1 >? max_retries) eqn:E; [right; right; eauto|].
    cbv zeta. destruct (throttle_wait _ _ <? 0); [right; right; eauto|].
    right; left. eexists; split; [reflexivity|lia].
  - destruct (retry_count + 1 >? max_retries) eqn:E; [right; right; eauto|].
    right; left. eexists; split; [reflexivity|lia].
Qed.

Lemma retry_loop_total url headers params max_retries :
  forall fuel retry_count w,
    max_retries + 1 - retry_count <= Z.of_nat fuel ->
    fst (retry_loop fuel url headers params max_retries retry_count w)
    <> OutOfFuel.
Proof.
  induction fuel as [|fuel IH]; intros rc w Hfuel; simpl.
  - destruct (rc <=? max_retries) eqn:E; [lia|]. discriminate.
  - destruct (rc <=? max_retries) eqn:E; [|discriminate].
    unfold bind.
    destruct (attempt_cases url headers params max_retries rc w)
      as [(r & w' & ->)|[(w' & -> & Hle)|(e & w' & ->)]]; simpl;
      try discriminate.
    apply IH. lia.
Qed.

(** The fetcher always comes back: with a response or with an exception. *)
Lemma fetcher_total url headers params max_retries w :
  fst (_make_graph_request_with_retry url headers params max_retries w)
  <> OutOfFuel.
Proof.
  unfold _make_graph_request_with_retry. apply retry_loop_total. lia.
Qed.

(** The fetcher touches neither the cache nor the stored subscriptions. *)
Lemma attempt_self url headers params max_retries retry_count w :
  let w' := snd (attempt url headers params max_retries retry_count w) in
  app_details w' = app_details w /\ subscriptions w' = subscriptions w
  /\ access_token w' = access_token w /\ net w' = net w /\ utcnow w' = utcnow w.
Proof.
  cbv zeta. rewrite attempt_eq. cbv zeta.
  destruct (net w _ _) as [r|e];
    repeat match goal with
    | |- context [if ?b then _ else _] => destruct b
    end; simpl; repeat split; reflexivity.
Qed.

Lemma retry_loop_self url headers params max_retries :
  forall fuel retry_count w,
    let w' := snd (retry_loop fuel url headers params max_retries retry_count w) in
    app_details w' = app_details w /\ subscriptions w' = subscriptions w
    /\ access_token w' = access_token w /\ net w' = net w /\ utcnow w' = utcnow w.
Proof.
  induction fuel as [|fuel IH]; intros rc w; simpl.
  - destruct (rc <=? max_retries); simpl; repeat split; reflexivity.
  - destruct (rc <=? max_retries); simpl; [|repeat split; reflexivity].
    unfold bind.
    pose proof (attempt_self url headers params max_retries rc w) as Ha.
    destruct (attempt url headers params max_retries rc w) as [res w1].
    simpl in Ha.
    destruct res as [[r|rc']|e|]; simpl; try exact Ha.
    specialize (IH rc' w1). simpl in IH.
    destruct IH as (I1 & I2 & I3 & I4 & I5), Ha as (H1 & H2 & H3 & H4 & H5).
    repeat split; congruence.
Qed.

(** ** Facts about the resolver *)

(** What a lookup does with the outcome of its call of the fetcher. *)
Lemma lookup_application_eq app_id w :
  lookup_application app_id w =
  match lookup_fetch app_id w with
  | (Ret r, wf) =>
      if status_code r =? 200 then
        match json_body r with
        | None => (Raise JSONDecodeError, wf)
        | Some data =>
            match body_value data with
            | Some (sp :: _) =>
                (Ret (found_info app_id sp), cache_store app_id (found_info app_id sp) wf)
            | _ => (Ret (not_found_info app_id),
                    cache_store app_id (not_found_info app_id) wf)
            end
        end
      else (Ret (not_found_info app_id),
            cache_store app_id (not_found_info app_id) wf)
  | (Raise e, wf) => (Raise e, wf)
  | (OutOfFuel, wf) => (OutOfFuel, wf)
  end.
Proof.
  unfold lookup_application, lookup_fetch, bind, get_self.
  destruct (_make_graph_request_with_retry _ _ _ _ w) as [[r|e|] wf];
    try reflexivity.
  destruct (status_code r =? 200); [|reflexivity].
  unfold response_json.
  destruct (json_body r) as [data|]; [|reflexivity]. simpl.
  destruct (body_value data) as [[|sp l]|]; reflexivity.
Qed.

Lemma lookup_fetch_self app_id w :
  let wf := snd (lookup_fetch app_id w) in
  app_details wf = app_details w /\ subscriptions wf = subscriptions w
  /\ access_token wf = access_token w /\ net wf = net w /\ utcnow wf = utcnow w.
Proof. apply retry_loop_self. Qed.

(** A lookup either stores what it returns, or raises and leaves the cache
    as it was. *)
Lemma lookup_application_cases app_id w :
  (exists info w1, lookup_application app_id w = (Ret info, w1)
      /\ app_details w1 = <[app_id := info]> (app_details w)
      /\ subscriptions w1 = subscriptions w)
  \/ (exists e w1, lookup_application app_id w = (Raise e, w1)
      /\ app_details w1 = app_details w
      /\ subscriptions w1 = subscriptions w).
Proof.
  rewrite lookup_application_eq.
  pose proof (lookup_fetch_self app_id w) as Hs.
  pose proof (fetcher_total service_principals_url
                (auth_headers (access_token w)) (Some (lookup_params app_id))
                default_max_retries w) as Ht.
  fold (lookup_fetch app_id w) in Ht.
  destruct (lookup_fetch app_id w) as [[r|e|] wf]; simpl in *;
    destruct Hs as (Hd & Hsub & _).
  - destruct (status_code r =? 200).
    + destruct (json_body r) as [data|].
      * destruct (body_value data) as [[|sp l]|]; left; eexists _, _;
          (split; [reflexivity|]); simpl; rewrite Hd; auto.
      * right. eexists _, _. auto.
    + left. eexists _, _. split; [reflexivity|]. simpl. rewrite Hd. auto.
  - right. eexists _, _. auto.
  - congruence.
Qed.

Lemma get_application_details_hit app_id info w :
  app_details w !! app_id = Some info ->
  get_application_details app_id w = (Ret info, w).
Proof.
  intros H. unfold get_application_details, bind, get_self. simpl.
  rewrite H. reflexivity.
Qed.

Lemma get_application_details_miss app_id w :
  app_details w !! app_id = None ->
  get_application_details app_id w =
  match lookup_application app_id w with
  | (Raise _, w1) => (Ret (error_info app_id), w1)
  | r => r
  end.
Proof.
  intros H. unfold get_application_details, bind, get_self, try_except. simpl.
  rewrite H. destruct (lookup_application app_id w) as [[info|e|] w1]; reflexivity.
Qed.

(** Resolution never fails its caller and leaves the stored subscriptions
    alone. *)
Lemma get_application_details_total app_id w :
  exists info w1, get_application_details app_id w = (Ret info, w1)
                  /\ subscriptions w1 = subscriptions w.
Proof.
  destruct (app_details w !! app_id) as [info|] eqn:E.
  - exists info, w. split; [by apply get_application_details_hit|reflexivity].
  - rewrite (get_application_details_miss _ _ E).
    destruct (lookup_application_cases app_id w)
      as [(info & w1 & -> & _ & Hs)|(e & w1 & -> & _ & Hs)]; eauto.
Qed.

(** ** Facts about the sort *)

Section SortReverse.
Context {A : Type} (key : A -> nat).

Lemma insert_desc_perm x l : Permutation (insert_desc key x l) (x :: l).
Proof.
  induction l as [|y l IH]; simpl; [reflexivity|].
  destruct (key x <? key y)%nat; [|reflexivity].
  rewrite IH. apply perm_swap.
Qed.

Lemma sort_reverse_perm l : Permutation (sort_reverse key l) l.
Proof.
  induction l as [|x l IH]; simpl; [reflexivity|].
  rewrite insert_desc_perm. by apply perm_skip.
Qed.

Lemma insert_desc_sorted x l :
  StronglySorted (desc key) l -> StronglySorted (desc key) (insert_desc key x l).
Proof.
  induction 1 as [|y l Hs IH Hy]; simpl.
  - repeat constructor.
  - destruct (key x <? key y)%nat eqn:E.
    + constructor; [exact IH|].
      rewrite List.Forall_forall. intros z Hz.
      apply (Permutation_in _ (insert_desc_perm x l)) in Hz.
      destruct Hz as [<-|Hz].
      * unfold desc. apply Nat.ltb_lt in E. lia.
      * rewrite List.Forall_forall in Hy. by apply Hy.
    + apply Nat.ltb_ge in E.
      constructor; [by constructor|].
      constructor; [exact E|].
      rewrite List.Forall_forall in Hy |- *. intros z Hz.
      specialize (Hy z Hz). unfold desc in *. lia.
Qed.

Lemma sort_reverse_sorted l : StronglySorted (desc key) (sort_reverse key l).
Proof.
  induction l as [|x l IH]; simpl; [constructor|].
  by apply insert_desc_sorted.
Qed.

Lemma insert_desc_stable c x l :
  with_key key c (insert_desc key x l) = with_key key c (x :: l).
Proof.
  induction l as [|y l IH]; [reflexivity|].
  simpl insert_desc.
  destruct (key x <? key y)%nat eqn:E; [|reflexivity].
  apply Nat.ltb_lt in E.
  unfold with_key in *. simpl in *. rewrite IH.
  destruct (key x =? c)%nat eqn:Ex, (key y =? c)%nat eqn:Ey; try reflexivity.
  apply Nat.eqb_eq in Ex, Ey. lia.
Qed.

Lemma sort_reverse_stable c l :
  with_key key c (sort_reverse key l) = with_key key c l.
Proof.
  induction l as [|x l IH]; [reflexivity|].
  simpl sort_reverse. rewrite insert_desc_stable.
  unfold with_key in *. simpl. by rewrite IH.
Qed.

Lemma sort_reverse_length l : length (sort_reverse key l) = length l.
Proof. apply Permutation_length, sort_reverse_perm. Qed.

Lemma list_sum_perm (l1 l2 : list nat) :
  Permutation l1 l2 -> list_sum l1 = list_sum l2.
Proof. induction 1; simpl; lia. Qed.

Lemma sort_reverse_sum l :
  list_sum (map key (sort_reverse key l)) = list_sum (map key l).
Proof. apply list_sum_perm, Permutation_map, sort_reverse_perm. Qed.

Lemma with_key_head_in c x l r : with_key key c l = x :: r -> In x l /\ key x = c.
Proof.
  intros H.
  assert (Hin : In x (with_key key c l)) by (rewrite H; by left).
  apply filter_In in Hin. destruct Hin as [Hin Hk].
  apply Nat.eqb_eq in Hk. auto.
Qed.

Lemma with_key_cons_same x l :
  with_key key (key x) (x :: l) = x :: with_key key (key x) l.
Proof. unfold with_key. simpl. by rewrite Nat.eqb_refl. Qed.

(** Two lists with non-increasing keys that agree on the elements of each
    key, in order, are equal: a stable sort has only one possible result. *)
Lemma sorted_stable_unique l1 :
  forall l2,
    StronglySorted (desc key) l1 -> StronglySorted (desc key) l2 ->
    (forall c, with_key key c l1 = with_key key c l2) ->
    l1 = l2.
Proof.
  induction l1 as [|x l1 IH]; intros l2 H1 H2 Hc.
  - destruct l2 as [|y l2]; [reflexivity|].
    specialize (Hc (key y)). unfold with_key in Hc. simpl in Hc.
    rewrite Nat.eqb_refl in Hc. discriminate.
  - destruct l2 as [|y l2].
    + specialize (Hc (key x)). unfold with_key in Hc. simpl in Hc.
      rewrite Nat.eqb_refl in Hc. discriminate.
    + apply StronglySorted_inv in H1 as [H1 Hx].
      apply StronglySorted_inv in H2 as [H2 Hy].
      rewrite List.Forall_forall in Hx, Hy.
      assert (Hxy : key x = key y).
      { pose proof (Hc (key x)) as Cx. pose proof (Hc (key y)) as Cy.
        rewrite with_key_cons_same in Cx. rewrite with_key_cons_same in Cy.
        symmetry in Cx.
        apply with_key_head_in in Cx as [[->|Hin] _]; [reflexivity|].
        apply with_key_head_in in Cy as [[->|Hin'] _]; [reflexivity|].
        specialize (Hx y Hin'). specialize (Hy x Hin). unfold desc in *. lia. }
      assert (x = y /\ forall c, with_key key c l1 = with_key key c l2) as [-> Hc'].
      { split.
        - specialize (Hc (key x)). unfold with_key in Hc. simpl in Hc.
          rewrite <- Hxy, Nat.eqb_refl in Hc. congruence.
        - intros c. specialize (Hc c). unfold with_key in *. simpl in Hc.
          rewrite <- Hxy in Hc.
          destruct (key x =? c)%nat; congruence. }
      f_equal. by apply IH.
Qed.

Lemma sort_reverse_unique l l' :
  StronglySorted (desc key) l' ->
  (forall c, with_key key c l' = with_key key c l) ->
  l' = sort_reverse key l.
Proof.
  intros Hs Hc. apply sorted_stable_unique; [exact Hs|apply sort_reverse_sorted|].
  intros c. by rewrite Hc, sort_reverse_stable.
Qed.
End SortReverse.

(** ** Facts about the grouping *)

Lemma odict_mem_keys k d : odict_mem k d = true <-> In k (odict_keys d).
Proof.
  induction d as [|[k' g] d IH]; simpl; [by split|].
  destruct (String.eqb_spec k k') as [->|Hne].
  - split; auto.
  - rewrite IH. split; [auto|]. intros [E|H]; [congruence|exact H].
Qed.

Lemma odict_mem_false_keys k d : odict_mem k d = false <-> ~ In k (odict_keys d).
Proof.
  rewrite <- odict_mem_keys. destruct (odict_mem k d); split; congruence.
Qed.

Lemma odict_set_absent k v d :
  odict_mem k d = false -> odict_set k v d = d ++ [(k, v)].
Proof.
  induction d as [|[k' g] d IH]; simpl; [reflexivity|].
  destruct (String.eqb k k'); [discriminate|].
  intros H. by rewrite IH.
Qed.

Lemma odict_append_keys k e d : odict_keys (odict_append k e d) = odict_keys d.
Proof.
  induction d as [|[k' g] d IH]; simpl; [reflexivity|].
  destruct (String.eqb k k'); simpl; [reflexivity|]. by rewrite IH.
Qed.

Lemma odict_append_length k e d : length (odict_append k e d) = length d.
Proof.
  rewrite <- (length_map fst (odict_append k e d)), <- (length_map fst d).
  fold (odict_keys (odict_append k e d)). by rewrite odict_append_keys.
Qed.

Lemma subscription_count_append e g :
  subscription_count (append_subscription e g) = S (subscription_count g).
Proof. unfold subscription_count. simpl. rewrite length_app. simpl. lia. Qed.

(** Appending under a key that is present adds one subscription in all. *)
Lemma odict_append_total k e d :
  odict_mem k d = true ->
  total_count (odict_values (odict_append k e d)) = S (total_count (odict_values d)).
Proof.
  unfold total_count, odict_values.
  induction d as [|[k' g] d IH]; simpl; [discriminate|].
  destruct (String.eqb k k'); simpl.
  - intros _. by rewrite subscription_count_append.
  - intros H. rewrite (IH H). lia.
Qed.

Lemma total_count_app l1 l2 :
  total_count (l1 ++ l2) = (total_count l1 + total_count l2)%nat.
Proof.
  unfold total_count. rewrite map_app.
  induction (map subscription_count l1) as [|n l IH]; simpl; lia.
Qed.

Lemma group_loop_cons sub rest d w :
  group_loop (sub :: rest) d w =
  match group_step sub d w with
  | (Ret d1, w1) => group_loop rest d1 w1
  | (Raise e, w1) => (Raise e, w1)
  | (OutOfFuel, w1) => (OutOfFuel, w1)
  end.
Proof.
  unfold group_step. simpl. unfold bind, ret.
  destruct (odict_mem (dict_get_default sub "applicationId" "Unknown") d); simpl;
    [reflexivity|].
  destruct (get_application_details _ w) as [[info|e|] w1]; reflexivity.
Qed.

(** The pass resolves the application when its group does not exist yet,
    creates the group at the end of the dictionary, and appends the
    subscription to the group. *)
Lemma group_step_cases sub d w :
  let app_id := dict_get_default sub "applicationId" "Unknown" in
  exists d1 w1,
    group_step sub d w = (Ret (odict_append app_id (entry_of sub) d1), w1)
    /\ subscriptions w1 = subscriptions w
    /\ odict_mem app_id d1 = true
    /\ ((odict_mem app_id d = true /\ d1 = d /\ w1 = w)
        \/ (odict_mem app_id d = false
            /\ exists info,
                get_application_details app_id w = (Ret info, w1)
                /\ d1 = d ++ [(app_id, mkAppGroup app_id (info_displayName info)
                                         (info_servicePrincipalId info) [])])).
Proof.
  intros app_id. unfold group_step. simpl. fold app_id. unfold bind, ret.
  destruct (odict_mem app_id d) eqn:E; simpl.
  - exists d, w. repeat split; auto.
  - destruct (get_application_details_total app_id w) as (info & w1 & Hg & Hs).
    rewrite Hg. rewrite (odict_set_absent _ _ _ E).
    eexists _, w1. split; [reflexivity|]. split; [exact Hs|]. split.
    + apply odict_mem_keys. unfold odict_keys. rewrite map_app. simpl.
      apply in_or_app. right. by left.
    + right. split; [reflexivity|]. exists info. auto.
Qed.

(** The loop always returns, leaves the stored subscriptions alone, and adds
    one subscription to the groups for every record it is given. *)
Lemma group_loop_total :
  forall subs d w,
  exists d' w',
    group_loop subs d w = (Ret d', w')
    /\ subscriptions w' = subscriptions w
    /\ total_count (odict_values d')
       = (total_count (odict_values d) + length subs)%nat.
Proof.
  induction subs as [|sub rest IH]; intros d w.
  - exists d, w. simpl. repeat split; auto.
  - rewrite group_loop_cons.
    destruct (group_step_cases sub d w) as (d1 & w1 & -> & Hs & Hm & Hd).
    destruct (IH (odict_append (dict_get_default sub "applicationId" "Unknown")
                    (entry_of sub) d1) w1) as (d' & w' & -> & Hs' & Ht).
    exists d', w'. split; [reflexivity|]. split; [congruence|].
    rewrite Ht, (odict_append_total _ _ _ Hm).
    destruct Hd as [(_ & -> & _)|(_ & info & _ & ->)].
    + simpl. lia.
    + unfold odict_values. rewrite map_app. rewrite total_count_app.
      unfold total_count at 2. simpl. lia.
Qed.

(** ** Facts about the report *)

(** [generate_report] always returns a report; the report is built from the
    outcome of the grouping loop. *)
Lemma generate_report_eq filter_transcripts w :
  exists apps_map w',
    group_loop (subs_to_process filter_transcripts w) [] w = (Ret apps_map, w')
    /\ subscriptions w' = subscriptions w
    /\ generate_report filter_transcripts w =
       (Ret (mkReport (utcnow w' +:+ "Z")
               (length (subscriptions w))
               (length (List.filter is_transcript_subscription (subscriptions w)))
               (length (subs_to_process filter_transcripts w))
               (length apps_map)
               (sort_reverse subscription_count (odict_values apps_map))),
        w').
Proof.
  destruct (group_loop_total (subs_to_process filter_transcripts w) [] w)
    as (d & w' & Hg & Hs & _).
  exists d, w'. split; [exact Hg|]. split; [exact Hs|].
  unfold generate_report, bind, filter_transcript_subscriptions, get_self, ret.
  unfold subs_to_process in Hg.
  destruct filter_transcripts; simpl; simpl in Hg; rewrite Hg; simpl;
    rewrite Hs; reflexivity.
Qed.

(** C3: every report that [generate_report] builds, with or without the
    transcript filter, conserves the counts: the subscription counts of its
    application groups add up to [reportedSubscriptions], and
    [uniqueApplications] is the number of its application groups.  The
    function builds a report from every state of the analyzer. *)
Theorem generate_report_counts (filter_transcripts : bool) (w : World) :
  exists report w',
    generate_report filter_transcripts w = (Ret report, w')
    /\ list_sum (map subscription_count (applications report))
       = reportedSubscriptions report
    /\ uniqueApplications report = length (applications report).
Proof.
  destruct (group_loop_total (subs_to_process filter_transcripts w) [] w)
    as (d & w1 & Hg & _ & Ht).
  destruct (generate_report_eq filter_transcripts w)
    as (d' & w' & Hg' & _ & Hr).
  rewrite Hg in Hg'. injection Hg' as <- <-.
  eexists _, _. split; [exact Hr|]. simpl. split.
  - rewrite sort_reverse_sum. exact Ht.
  - rewrite sort_reverse_length. unfold odict_values. by rewrite length_map.
Qed.

(** ** The groups, their order of creation and their contents *)

Lemma first_seen_In x l : In x (first_seen l) <-> In x l.
Proof.
  induction l as [|a l IH]; simpl; [tauto|].
  rewrite filter_In, IH.
  destruct (String.eqb_spec a x) as [->|Hne]; simpl; [tauto|].
  split; [tauto|]. intros [E|H]; [tauto|]. right. split; [exact H|reflexivity].
Qed.

Lemma first_seen_NoDup l : List.NoDup (first_seen l).
Proof.
  induction l as [|a l IH]; simpl; constructor.
  - rewrite filter_In. intros [_ H]. by rewrite String.eqb_refl in H.
  - by apply List.NoDup_filter.
Qed.

Lemma first_seen_snoc l x :
  first_seen (l ++ [x]) =
  first_seen l ++ (if existsb (String.eqb x) l then [] else [x]).
Proof.
  induction l as [|a l IH]; [reflexivity|].
  simpl. rewrite IH, List.filter_app. f_equal. f_equal.
  rewrite (String.eqb_sym x a).
  destruct (existsb (String.eqb x) l); simpl.
  - by rewrite orb_true_r.
  - rewrite orb_false_r. by destruct (String.eqb a x).
Qed.

Lemma existsb_eqb_In x l : existsb (String.eqb x) l = true <-> In x l.
Proof.
  rewrite existsb_exists. split.
  - intros (y & Hy & E). apply String.eqb_eq in E. by subst.
  - intros H. exists x. split; [exact H|apply String.eqb_refl].
Qed.

Lemma owned_by_snoc k done sub :
  owned_by k (done ++ [sub]) =
  owned_by k done ++ (if String.eqb (owner sub) k then [sub] else []).
Proof. unfold owned_by. rewrite List.filter_app. reflexivity. Qed.

Lemma owned_by_nil k done :
  ~ In k (map owner done) -> owned_by k done = [].
Proof.
  unfold owned_by. induction done as [|s done IH]; simpl; [reflexivity|].
  intros H. destruct (String.eqb_spec (owner s) k) as [E|_]; [tauto|].
  apply IH. tauto.
Qed.

(** Appending the record [sub] under its own key keeps every group in step
    with the records processed. *)
Lemma odict_append_grouped done sub d :
  List.NoDup (odict_keys d) ->
  Forall (fun p => group_applicationId (snd p) = fst p
                   /\ holds_records done (snd p)) d ->
  Forall (fun p => group_applicationId (snd p) = fst p
                   /\ holds_records (done ++ [sub]) (snd p))
         (odict_append (owner sub) (entry_of sub) d).
Proof.
  induction d as [|[k g] d IH]; simpl; intros Hnd Hf; [constructor|].
  apply List.NoDup_cons_iff in Hnd as [Hk Hnd].
  apply Forall_cons_iff in Hf as [[Hid Hg] Hf]. simpl in Hid, Hg.
  destruct (String.eqb_spec (owner sub) k) as [E|Hne].
  - constructor; simpl.
    + split; [exact Hid|]. unfold holds_records in *. simpl.
      rewrite Hg, Hid, owned_by_snoc, map_app.
      destruct (String.eqb_spec (owner sub) k); [reflexivity|congruence].
    + rewrite List.Forall_forall in Hf |- *. intros [k' g'] Hin.
      destruct (Hf _ Hin) as [Hid' Hg']. simpl in *. split; [exact Hid'|].
      unfold holds_records in *. rewrite Hg', Hid', owned_by_snoc.
      destruct (String.eqb_spec (owner sub) k') as [E'|_].
      * exfalso. apply Hk. assert (k = k') as -> by congruence.
        unfold odict_keys. apply in_map_iff. exists (k', g'). auto.
      * by rewrite app_nil_r.
  - constructor; simpl.
    + split; [exact Hid|]. unfold holds_records in *.
      rewrite Hg, Hid, owned_by_snoc.
      destruct (String.eqb_spec (owner sub) k); [congruence|].
      by rewrite app_nil_r.
    + by apply IH.
Qed.

(** One pass of the loop takes the groups of [done] to the groups of
    [done ++ [sub]]. *)
Lemma group_step_grouped done sub d w :
  grouped done d ->
  exists d' w',
    group_step sub d w = (Ret d', w') /\ grouped (done ++ [sub]) d'.
Proof.
  intros [Hk Hf].
  destruct (group_step_cases sub d w) as (d1 & w1 & Hs & _ & Hm & Hd).
  cbv zeta in *. fold (owner sub) in *.
  eexists _, _. split; [exact Hs|].
  assert (Hin : odict_mem (owner sub) d = existsb (String.eqb (owner sub)) (map owner done)).
  { apply eq_true_iff_eq.
    rewrite odict_mem_keys, Hk, first_seen_In, existsb_eqb_In. reflexivity. }
  split.
  - rewrite odict_append_keys, map_app.
    change (map owner [sub]) with [owner sub].
    rewrite first_seen_snoc, <- Hin.
    destruct Hd as [(Hmem & -> & _)|(Hmem & info & _ & ->)]; rewrite Hmem.
    + by rewrite app_nil_r.
    + unfold odict_keys in *. rewrite map_app, Hk. reflexivity.
  - apply odict_append_grouped.
    + destruct Hd as [(Hmem & -> & _)|(Hmem & info & _ & ->)].
      * rewrite Hk. apply first_seen_NoDup.
      * unfold odict_keys in *. rewrite map_app. simpl.
        apply List.NoDup_app.
        -- rewrite Hk. apply first_seen_NoDup.
        -- repeat constructor. simpl. tauto.
        -- intros x Hx [<-|[]]. apply odict_mem_false_keys in Hmem.
           by apply Hmem.
    + destruct Hd as [(Hmem & -> & _)|(Hmem & info & _ & ->)]; [exact Hf|].
      apply Forall_app. split; [exact Hf|].
      constructor; [|constructor]. simpl. split; [reflexivity|].
      unfold holds_records. simpl. rewrite owned_by_nil; [reflexivity|].
      apply odict_mem_false_keys in Hmem. rewrite Hk, first_seen_In in Hmem.
      exact Hmem.
Qed.

(** The whole loop: started on the groups of [done], it ends on the groups
    of [done ++ rest]. *)
Lemma group_loop_grouped :
  forall rest done d w,
    grouped done d ->
    exists d' w',
      group_loop rest d w = (Ret d', w') /\ grouped (done ++ rest) d'.
Proof.
  induction rest as [|sub rest IH]; intros done d w Hg.
  - exists d, w. rewrite app_nil_r. auto.
  - rewrite group_loop_cons.
    destruct (group_step_grouped done sub d w Hg) as (d1 & w1 & -> & Hg1).
    destruct (IH (done ++ [sub]) d1 w1 Hg1) as (d' & w' & -> & Hg').
    exists d', w'. split; [reflexivity|].
    by rewrite <- app_assoc in Hg'.
Qed.

Lemma grouped_nil : grouped [] [].
Proof. split; [reflexivity|constructor]. Qed.

Lemma grouped_values subs d :
  grouped subs d ->
  map group_applicationId (odict_values d) = first_seen (map owner subs)
  /\ Forall (holds_records subs) (odict_values d).
Proof.
  intros [Hk Hf]. rewrite <- Hk. clear Hk.
  unfold odict_values, odict_keys.
  induction d as [|[k g] d IH]; simpl; [split; [reflexivity|constructor]|].
  apply Forall_cons_iff in Hf as [[Hid Hg] Hf]. simpl in Hid, Hg.
  destruct (IH Hf) as [IH1 IH2].
  split; [by rewrite Hid, IH1|by constructor].
Qed.

Lemma holds_records_count subs g :
  holds_records subs g ->
  subscription_count g = length (owned_by (group_applicationId g) subs).
Proof.
  unfold holds_records, subscription_count. intros ->. apply length_map.
Qed.

(** Selecting the groups of a given size selects the applications with that
    many records. *)
Lemma with_key_ids subs c groups :
  Forall (holds_records subs) groups ->
  map group_applicationId (with_key subscription_count c groups) =
  List.filter (fun k => (length (owned_by k subs) =? c)%nat)
              (map group_applicationId groups).
Proof.
  unfold with_key.
  induction 1 as [|g groups Hg Hf IH]; simpl; [reflexivity|].
  rewrite (holds_records_count _ _ Hg).
  destruct (length (owned_by (group_applicationId g) subs) =? c)%nat; simpl;
    by rewrite IH.
Qed.

(** C8: the application groups of a report are ordered by descending
    subscription count, and the order is stable.  The groups are those of the
    distinct applications of the records processed, each holding the records
    of its application in input order; their counts never increase along the
    report; and for every count, the groups of that count appear in the order
    in which their applications first occur in the input, which is the order
    in which the groups were created. *)
Theorem generate_report_sorted_stable (filter_transcripts : bool) (w : World) :
  exists report w',
    generate_report filter_transcripts w = (Ret report, w')
    /\ let subs := subs_to_process filter_transcripts w in
       let apps := applications report in
       Forall (holds_records subs) apps
       /\ Permutation (map group_applicationId apps) (first_seen (map owner subs))
       /\ StronglySorted (desc subscription_count) apps
       /\ forall c,
            map group_applicationId (with_key subscription_count c apps) =
            List.filter (fun k => (length (owned_by k subs) =? c)%nat)
                        (first_seen (map owner subs)).
Proof.
  destruct (generate_report_eq filter_transcripts w)
    as (d & w' & Hg & _ & Hr).
  destruct (group_loop_grouped (subs_to_process filter_transcripts w) [] [] w
              grouped_nil) as (d' & w'' & Hg' & Hgr).
  rewrite Hg in Hg'. injection Hg' as <- <-. simpl in Hgr.
  apply grouped_values in Hgr as [Hids Hrec].
  eexists _, _. split; [exact Hr|]. simpl.
  pose proof (sort_reverse_perm subscription_count (odict_values d)) as Hp.
  split; [|split; [|split]].
  - rewrite List.Forall_forall in Hrec |- *. intros g Hin. apply Hrec.
    by apply (Permutation_in _ Hp).
  - rewrite <- Hids. by apply Permutation_map.
  - apply sort_reverse_sorted.
  - intros c. rewrite sort_reverse_stable, <- Hids. by apply with_key_ids.
Qed.

(** A report over groups created in the order a, b, c, d with counts 3, 1,
    3, 2 lists them as a, c, d, b: counts 3, 3, 2, 1, the two groups of
    count 3 in their order of creation. *)
Example report_3132 :
  match fst (generate_report false four_apps_world) with
  | Ret report =>
      map (fun g => (group_applicationId g, subscription_count g))
          (applications report)
  | _ => []
  end = [("a", 3); ("c", 3); ("d", 2); ("b", 1)]%nat.
Proof. vm_compute. reflexivity. Qed.

(** Groups created with counts 3, 1, 3, 2: the two groups of count 3 keep
    their order of creation. *)
Example sort_reverse_3132 :
  sort_reverse fst [(3, "first"); (1, "second"); (3, "third"); (2, "fourth")]%nat
  = [(3, "first"); (3, "third"); (2, "fourth"); (1, "second")]%nat.
Proof. reflexivity. Qed.

(** ** Facts about strings and the transcript filter *)

Lemma str_app_nil (s : string) : "" +:+ s = s.
Proof. reflexivity. Qed.

Lemma str_app_cons (c : ascii) (a b : string) :
  String c a +:+ b = String c (a +:+ b).
Proof. reflexivity. Qed.

Lemma startswith_spec p : forall s,
  Py.startswith p s = true <-> exists post, s = p +:+ post.
Proof.
  induction p as [|a p IH]; intros s; simpl.
  - split; [intros _; by exists s|auto].
  - destruct s as [|b s].
    + split; [discriminate|]. intros [post H]. discriminate.
    + destruct (Ascii.eqb_spec a b) as [->|Hne].
      * rewrite IH. split; intros [post H]; exists post;
          rewrite str_app_cons in *; congruence.
      * split; [discriminate|]. intros [post H].
        rewrite str_app_cons in H. congruence.
Qed.

Lemma contains_spec needle : forall hay,
  Py.contains needle hay = true <-> exists pre post, hay = pre +:+ needle +:+ post.
Proof.
  induction hay as [|c hay IH]; simpl.
  - rewrite orb_false_r, startswith_spec. split.
    + intros [post H]. by exists "", post.
    + intros (pre & post & H). destruct pre; [by exists post|discriminate].
  - rewrite orb_true_iff, startswith_spec, IH. split.
    + intros [[post H]|(pre & post & H)].
      * by exists "", post.
      * exists (String c pre), post. by rewrite str_app_cons, H.
    + intros (pre & post & H). destruct pre as [|c' pre].
      * left. by exists post.
      * right. exists pre, post. rewrite str_app_cons in H. congruence.
Qed.

Lemma lower_app a b : Py.lower (a +:+ b) = Py.lower a +:+ Py.lower b.
Proof.
  induction a as [|c a IH]; [reflexivity|].
  rewrite str_app_cons. simpl. by rewrite IH, str_app_cons.
Qed.

Lemma lower_split a : forall s b,
  Py.lower s = a +:+ b ->
  exists s1 s2, s = s1 +:+ s2 /\ Py.lower s1 = a /\ Py.lower s2 = b.
Proof.
  induction a as [|c a IH]; intros s b H.
  - by exists "", s.
  - rewrite str_app_cons in H.
    destruct s as [|c' s]; [discriminate|]. simpl in H.
    injection H as Hc Hs.
    destruct (IH _ _ Hs) as (s1 & s2 & -> & H1 & H2).
    exists (String c' s1), s2. simpl. by rewrite Hc, H1.
Qed.

Lemma is_transcript_resource_spec resource :
  is_transcript_resource resource = true <-> TranscriptMatch resource.
Proof.
  unfold is_transcript_resource, TranscriptMatch.
  rewrite orb_true_iff, !contains_spec.
  apply or_iff_compat_r. split.
  - intros (pre' & post' & H).
    apply lower_split in H as (pre & rest & -> & _ & H).
    apply lower_split in H as (mid & post & -> & Hmid & _).
    by exists pre, mid, post.
  - intros (pre & mid & post & -> & Hmid).
    exists (Py.lower pre), (Py.lower post).
    by rewrite !lower_app, Hmid.
Qed.

(** C9: a subscription record counts as a transcript match exactly when its
    resource path contains "transcript" in any mix of cases or contains
    "communications/onlineMeetings" literally; the filter keeps the stored
    records that match, and only those; an online-meeting path with or
    without transcripts matches, a drive path does not. *)
Theorem transcript_match_iff :
  (forall sub : pydict,
      is_transcript_subscription sub = true <-> TranscriptMatch (resource_of sub))
  /\ (forall w : World,
      exists kept,
        filter_transcript_subscriptions w = (Ret kept, w)
        /\ forall sub, In sub kept <->
                       In sub (subscriptions w) /\ TranscriptMatch (resource_of sub))
  /\ is_transcript_subscription
       {[ "resource" := "/communications/onlineMeetings('x')/transcripts('y')" ]} = true
  /\ is_transcript_subscription
       {[ "resource" := "/communications/onlineMeetings('x')" ]} = true
  /\ is_transcript_subscription {[ "resource" := "/users/1/drive" ]} = false.
Proof.
  split; [|split; [|repeat split; vm_compute; reflexivity]].
  - intros sub. apply is_transcript_resource_spec.
  - intros w. eexists. split; [reflexivity|].
    intros sub. rewrite filter_In.
    unfold is_transcript_subscription. fold (resource_of sub).
    by rewrite is_transcript_resource_spec.
Qed.

(** ** Facts about the paginator *)

(** One pass through the loop of the paginator. *)
Lemma pages_loop_step fuel headers url acc w :
  Py.truthy url = true ->
  let rq := mkRequest (default "" url) headers None in
  let w1 := log_request rq w in
  pages_loop (S fuel) headers url acc w =
  match net w (length (requests_log w)) rq with
  | Answer r =>
      if negb (status_code r =? 200)
      then (Raise (FailedToFetchSubscriptions (status_code r) (text r)), w1)
      else match json_body r with
           | None => (Raise JSONDecodeError, w1)
           | Some data =>
               pages_loop fuel headers (body_nextLink data)
                          (acc ++ page_items data) w1
           end
  | TransportFailure e => (Raise (RequestException e), w1)
  end.
Proof.
  intros Ht rq w1. simpl. rewrite Ht. unfold bind, requests_get.
  fold rq. fold w1.
  destruct (net w (length (requests_log w)) rq) as [r|e]; [|reflexivity].
  destruct (negb (status_code r =? 200)); [reflexivity|].
  unfold response_json. destruct (json_body r); reflexivity.
Qed.

Lemma pages_loop_stop fuel headers url acc w :
  Py.truthy url = false ->
  pages_loop fuel headers url acc w = (Ret acc, w).
Proof. intros Ht. destruct fuel; simpl; by rewrite Ht. Qed.

(** The loop does not touch the fields of the analyzer. *)
Lemma pages_loop_self headers :
  forall fuel url acc w,
    let w' := snd (pages_loop fuel headers url acc w) in
    subscriptions w' = subscriptions w /\ app_details w' = app_details w.
Proof.
  induction fuel as [|fuel IH]; intros url acc w.
  - simpl. destruct (Py.truthy url); simpl; auto.
  - destruct (Py.truthy url) eqn:Ht.
    + cbv zeta. rewrite (pages_loop_step _ _ _ _ _ Ht). cbv zeta.
      destruct (net w _ _) as [r|e]; [|simpl; auto].
      destruct (negb (status_code r =? 200)); [simpl; auto|].
      destruct (json_body r) as [data|]; [|simpl; auto].
      specialize (IH (body_nextLink data) (acc ++ page_items data)
                     (log_request (mkRequest (default "" url) headers None) w)).
      exact IH.
    + rewrite (pages_loop_stop _ _ _ _ _ Ht). simpl. auto.
Qed.

Lemma log_requests_nil w : log_requests [] w = w.
Proof. destruct w. unfold log_requests. simpl. by rewrite app_nil_r. Qed.

Lemma log_requests_cons rq rqs w :
  log_requests rqs (log_request rq w) = log_requests (rq :: rqs) w.
Proof.
  unfold log_requests, log_request. simpl. by rewrite <- app_assoc.
Qed.

Lemma link_after_truthy url pages :
  Py.truthy url = true ->
  Forall (fun p => has_next p = true) pages ->
  Py.truthy (link_after url pages) = true.
Proof.
  intros Hu Hf. revert url Hu.
  induction Hf as [|p ps Hp Hf IH]; intros url Hu; simpl; [exact Hu|].
  by apply IH.
Qed.

(** While the pages served carry continuation links the loop goes through
    them, adding their items in order and making one request for each. *)
Lemma pages_loop_pages token :
  forall pages fuel url acc w,
    Py.truthy url = true ->
    Forall (fun p => has_next p = true) pages ->
    serves (net w) token (length (requests_log w)) url pages ->
    pages_loop (length pages + fuel) (auth_headers token) url acc w =
    pages_loop fuel (auth_headers token) (link_after url pages)
               (acc ++ concat (map page_items pages))
               (log_requests (page_requests token url pages) w).
Proof.
  induction pages as [|p ps IH]; intros fuel url acc w Hu Hf Hs.
  - simpl. by rewrite app_nil_r, log_requests_nil.
  - apply Forall_cons_iff in Hf as [Hp Hf].
    destruct Hs as [(r & Hr & H200 & Hj) Hs].
    change (length (p :: ps) + fuel)%nat with (S (length ps + fuel)).
    rewrite (pages_loop_step _ _ _ _ _ Hu). cbv zeta.
    unfold page_request in Hr. rewrite Hr, H200, Hj. simpl negb. cbv iota.
    rewrite IH; [|exact Hp|exact Hf|].
    + simpl. rewrite log_requests_cons, <- app_assoc. reflexivity.
    + simpl. rewrite length_app. simpl.
      replace (length (requests_log w) + 1)%nat with (S (length (requests_log w)))
        by lia.
      exact Hs.
Qed.

Lemma page_requests_length token url pages :
  length (page_requests token url pages) = length pages.
Proof. revert url. induction pages as [|p ps IH]; intros url; simpl; auto. Qed.

Lemma get_all_subscriptions_eq fuel w :
  get_all_subscriptions fuel w =
  match pages_loop fuel (auth_headers (access_token w))
                   (Some subscriptions_url) [] w with
  | (Ret all_subscriptions, w1) =>
      (Ret all_subscriptions, set_subscriptions all_subscriptions w1)
  | (Raise e, w1) => (Raise e, w1)
  | (OutOfFuel, w1) => (OutOfFuel, w1)
  end.
Proof.
  unfold get_all_subscriptions, bind, get_self, modify, ret. simpl.
  destruct (pages_loop _ _ _ _ w) as [[l|e|] w1]; reflexivity.
Qed.

Lemma serves_app net token pages1 : forall n url pages2,
  serves net token n url (pages1 ++ pages2) <->
  serves net token n url pages1
  /\ serves net token (n + length pages1) (link_after url pages1) pages2.
Proof.
  induction pages1 as [|p ps IH]; intros n url pages2; simpl.
  - rewrite Nat.add_0_r. tauto.
  - rewrite IH. replace (S n + length ps)%nat with (n + S (length ps))%nat by lia.
    tauto.
Qed.

Lemma log_requests_log rqs w :
  requests_log (log_requests rqs w) = requests_log w ++ rqs.
Proof. reflexivity. Qed.

Lemma page_requests_app token pages1 : forall url pages2,
  page_requests token url (pages1 ++ pages2) =
  page_requests token url pages1
  ++ page_requests token (link_after url pages1) pages2.
Proof.
  induction pages1 as [|p ps IH]; intros url pages2; simpl; [reflexivity|].
  by rewrite IH.
Qed.

Lemma log_requests_snoc rq rqs w :
  log_request rq (log_requests rqs w) = log_requests (rqs ++ [rq]) w.
Proof.
  unfold log_requests, log_request. simpl. by rewrite <- app_assoc.
Qed.

Lemma subscriptions_url_truthy : Py.truthy (Some subscriptions_url) = true.
Proof. reflexivity. Qed.

(** C5: when the server answers with N pages, every request returning
    status 200, every page but the last carrying a continuation link and the
    last carrying none, [get_all_subscriptions] returns the items of the
    pages concatenated in page order, after exactly N requests (one per page,
    each to the link of the page before); the loop ends at the page without a
    link, whatever fuel beyond N it is given, and the list is stored. *)
Theorem get_all_subscriptions_pages
        (w : World) (init : list Body) (last : Body) (fuel : nat) :
  Forall (fun page => has_next page = true) init ->
  has_next last = false ->
  serves (net w) (access_token w) (length (requests_log w))
         (Some subscriptions_url) (init ++ [last]) ->
  (length (init ++ [last]) <= fuel)%nat ->
  let pages := init ++ [last] in
  let items := concat (map page_items pages) in
  let requests := page_requests (access_token w) (Some subscriptions_url) pages in
  get_all_subscriptions fuel w =
    (Ret items, set_subscriptions items (log_requests requests w))
  /\ length requests = length pages.
Proof.
  intros Hinit Hlast Hserves Hfuel pages items requests.
  split; [|apply page_requests_length].
  apply serves_app in Hserves as [Hs1 [(r & Hr & H200 & Hj) _]].
  rewrite length_app in Hfuel. simpl in Hfuel.
  replace fuel with (length init + S (fuel - length init - 1))%nat by lia.
  rewrite get_all_subscriptions_eq.
  rewrite (pages_loop_pages (access_token w) init _ _ _ w
             subscriptions_url_truthy Hinit Hs1).
  pose proof (link_after_truthy _ _ subscriptions_url_truthy Hinit) as Hl.
  rewrite (pages_loop_step _ _ _ _ _ Hl). cbv zeta.
  rewrite log_requests_log, length_app, page_requests_length.
  unfold page_request in Hr. simpl net. rewrite Hr, H200, Hj. simpl negb. cbv iota.
  rewrite pages_loop_stop by exact Hlast.
  subst items requests pages.
  rewrite map_app, concat_app, page_requests_app. simpl.
  rewrite !app_nil_r. rewrite log_requests_snoc. reflexivity.
Qed.

Lemma get_all_subscriptions_pages_witness :
  get_all_subscriptions 5 two_pages_world =
    (Ret (concat (map page_items [example_page1; example_page2])),
     set_subscriptions (concat (map page_items [example_page1; example_page2]))
       (log_requests (page_requests "token" (Some subscriptions_url)
                        [example_page1; example_page2]) two_pages_world))
  /\ length (page_requests "token" (Some subscriptions_url)
               [example_page1; example_page2]) = 2%nat.
Proof.
  apply (get_all_subscriptions_pages two_pages_world [example_page1]
           example_page2 5).
  - repeat constructor.
  - reflexivity.
  - simpl. split; [|split; [|exact I]]; eexists; repeat split; reflexivity.
  - simpl. lia.
Defined.

(** The stored subscriptions change only when the listing returns, and then
    they are the list returned. *)
Lemma get_all_subscriptions_publishes fuel w :
  match get_all_subscriptions fuel w with
  | (Ret all_subscriptions, w') => subscriptions w' = all_subscriptions
  | (_, w') => subscriptions w' = subscriptions w
  end.
Proof.
  rewrite get_all_subscriptions_eq.
  pose proof (pages_loop_self (auth_headers (access_token w)) fuel
                (Some subscriptions_url) [] w) as [Hs _].
  destruct (pages_loop _ _ _ _ w) as [[l|e|] w1]; simpl in *; auto.
Qed.

(** C4: when a request for a listing page fails (a transport failure, a
    status other than 200 or a body that does not decode) after any number of
    pages retrieved successfully, the listing ends with an exception: the
    caller gets the error, not the records accumulated so far, and the stored
    subscriptions are what they were.  In every run the stored subscriptions
    are replaced only when the listing returns, by the list it returns. *)
Theorem get_all_subscriptions_aborts
        (w : World) (init : list Body) (reply : Reply) (fuel : nat) :
  Forall (fun page => has_next page = true) init ->
  serves (net w) (access_token w) (length (requests_log w))
         (Some subscriptions_url) init ->
  net w (length (requests_log w) + length init)
        (page_request (access_token w) (link_after (Some subscriptions_url) init))
    = reply ->
  page_fails reply = true ->
  (length init < fuel)%nat ->
  (exists w',
      get_all_subscriptions fuel w = (Raise (page_error reply), w')
      /\ subscriptions w' = subscriptions w
      /\ length (requests_log w') = (length (requests_log w) + length init + 1)%nat)
  /\ (forall fuel0 w0,
         match get_all_subscriptions fuel0 w0 with
         | (Ret all_subscriptions, w') => subscriptions w' = all_subscriptions
         | (_, w') => subscriptions w' = subscriptions w0
         end).
Proof.
  intros Hinit Hserves Hreply Hfails Hfuel.
  split; [|exact get_all_subscriptions_publishes].
  replace fuel with (length init + S (fuel - length init - 1))%nat by lia.
  rewrite get_all_subscriptions_eq.
  rewrite (pages_loop_pages (access_token w) init _ _ _ w
             subscriptions_url_truthy Hinit Hserves).
  pose proof (link_after_truthy _ _ subscriptions_url_truthy Hinit) as Hl.
  rewrite (pages_loop_step _ _ _ _ _ Hl). cbv zeta.
  rewrite log_requests_log, length_app, page_requests_length.
  unfold page_request in Hreply. simpl net. rewrite Hreply.
  assert (Hlen : forall rq,
             length (requests_log (log_request rq
               (log_requests (page_requests (access_token w)
                  (Some subscriptions_url) init) w)))
             = (length (requests_log w) + length init + 1)%nat).
  { intros rq. simpl. rewrite !length_app, page_requests_length. simpl. lia. }
  destruct reply as [r|e]; simpl in Hfails |- *.
  - destruct (negb (status_code r =? 200)); simpl in Hfails.
    + eexists. split; [reflexivity|]. split; [reflexivity|apply Hlen].
    + destruct (json_body r); [discriminate|].
      eexists. split; [reflexivity|]. split; [reflexivity|apply Hlen].
  - eexists. split; [reflexivity|]. split; [reflexivity|apply Hlen].
Qed.

Lemma get_all_subscriptions_aborts_witness :
  exists w',
    get_all_subscriptions 5 broken_second_page_world =
      (Raise (FailedToFetchSubscriptions 500 "Internal Server Error"), w')
    /\ subscriptions w' = []
    /\ length (requests_log w') = 2%nat.
Proof.
  apply (get_all_subscriptions_aborts broken_second_page_world [example_page1]
           (Answer (mkResponse 500 None "Internal Server Error" None)) 5).
  - repeat constructor.
  - simpl. split; [|exact I]. eexists. repeat split; reflexivity.
  - reflexivity.
  - reflexivity.
  - simpl. lia.
Defined.

(** C1 on the code: a page request answered 429 ends the listing at once,
    with one request made and no wait, although the retrying fetcher, given
    the same request on the same network, waits one second, asks again and
    obtains the page. *)
Theorem listing_aborts_on_throttle :
  get_all_subscriptions 5 throttled_once_world =
    (Raise (FailedToFetchSubscriptions 429 ""),
     log_request (page_request "token" (Some subscriptions_url))
                 throttled_once_world)
  /\ sleeps_log (snd (get_all_subscriptions 5 throttled_once_world)) = []
  /\ (let fetched :=
        _make_graph_request_with_retry subscriptions_url (auth_headers "token")
          None default_max_retries throttled_once_world in
      fst fetched = Ret (mkResponse 200 None "" (Some example_page2))
      /\ sleeps_log (snd fetched) = [1]
      /\ length (requests_log (snd fetched)) = 2%nat).
Proof. repeat split; vm_compute; reflexivity. Qed.

(** ** The resolver and its cache *)

Lemma lookup_application_traffic app_id w :
  let w1 := snd (lookup_application app_id w) in
  let wf := snd (lookup_fetch app_id w) in
  requests_log w1 = requests_log wf /\ sleeps_log w1 = sleeps_log wf.
Proof.
  cbv zeta. rewrite lookup_application_eq.
  destruct (lookup_fetch app_id w) as [[r|e|] wf]; simpl; auto.
  destruct (status_code r =? 200); simpl; auto.
  destruct (json_body r) as [data|]; simpl; auto.
  destruct (body_value data) as [[|sp l]|]; simpl; auto.
Qed.

(** C2 as stated fails: after a lookup that exhausted its retries the error
    placeholder is returned but not stored, and the next resolution of the
    same identifier asks the network again and returns another value. *)
Lemma resolver_requeries_after_error :
  ~ resolves_once flaky_lookup_world "app-a"
  /\ (let first := get_application_details "app-a" flaky_lookup_world in
      let second := get_application_details "app-a" (snd first) in
      fst first = Ret (error_info "app-a")
      /\ app_details (snd first) !! "app-a" = None
      /\ fst second = Ret (mkAppInfo "Contoso" "app-a" (Some "sp-1"))
      /\ length (requests_log (snd first)) = 9%nat
      /\ length (requests_log (snd second)) = 10%nat).
Proof.
  split.
  - unfold resolves_once. intros [H _]. vm_compute in H. discriminate.
  - repeat split; vm_compute; reflexivity.
Qed.

(** C2, amended: every resolution returns a value.  Either the value is in
    the cache afterwards, and then resolving the same identifier again
    returns the identical value and changes nothing, so no request is made;
    or the identifier was not cached, the lookup raised, the value is the
    error placeholder and the cache is as it was, nothing having been stored.
    Which of the two happens on a miss is decided by the lookup: when it
    completes, with a match, with zero matches or with a status other than
    200, its value is stored under the identifier and returned; when it
    raises, and it raises whenever its call of the fetcher raises, the error
    placeholder is returned, the cache is unchanged and still has no entry
    for the identifier, and the next resolution of the identifier looks it up
    again.  A resolution that misses the cache makes exactly one call of the
    retrying fetcher: its requests and waits are those of that call. *)
Theorem resolver_caches (w : World) (app_id : string) :
  exists info w1,
    get_application_details app_id w = (Ret info, w1)
    /\ ((app_details w1 !! app_id = Some info
         /\ get_application_details app_id w1 = (Ret info, w1))
        \/ (app_details w !! app_id = None
            /\ (exists e, lookup_application app_id w = (Raise e, w1))
            /\ info = error_info app_id
            /\ app_details w1 = app_details w))
    /\ match app_details w !! app_id with
       | Some cached => info = cached /\ w1 = w
       | None =>
           requests_log w1 = requests_log (snd (lookup_fetch app_id w))
           /\ sleeps_log w1 = sleeps_log (snd (lookup_fetch app_id w))
       end
    /\ (app_details w !! app_id = None ->
        match lookup_application app_id w with
        | (Ret found, w2) =>
            info = found /\ w1 = w2
            /\ app_details w1 = <[app_id := found]> (app_details w)
        | (Raise _, w2) =>
            info = error_info app_id /\ w1 = w2
            /\ app_details w1 = app_details w
            /\ app_details w1 !! app_id = None
            /\ get_application_details app_id w1 =
               match lookup_application app_id w1 with
               | (Raise _, w3) => (Ret (error_info app_id), w3)
               | r => r
               end
        | (OutOfFuel, _) => False
        end)
    /\ (forall e wf,
          lookup_fetch app_id w = (Raise e, wf) ->
          lookup_application app_id w = (Raise e, wf)).
Proof.
  assert (Hfetch : forall e wf,
             lookup_fetch app_id w = (Raise e, wf) ->
             lookup_application app_id w = (Raise e, wf)).
  { intros e wf H. by rewrite lookup_application_eq, H. }
  cut (exists info w1,
          get_application_details app_id w = (Ret info, w1)
          /\ ((app_details w1 !! app_id = Some info
               /\ get_application_details app_id w1 = (Ret info, w1))
              \/ (app_details w !! app_id = None
                  /\ (exists e, lookup_application app_id w = (Raise e, w1))
                  /\ info = error_info app_id
                  /\ app_details w1 = app_details w))
          /\ match app_details w !! app_id with
             | Some cached => info = cached /\ w1 = w
             | None =>
                 requests_log w1 = requests_log (snd (lookup_fetch app_id w))
                 /\ sleeps_log w1 = sleeps_log (snd (lookup_fetch app_id w))
             end
          /\ (app_details w !! app_id = None ->
              match lookup_application app_id w with
              | (Ret found, w2) =>
                  info = found /\ w1 = w2
                  /\ app_details w1 = <[app_id := found]> (app_details w)
              | (Raise _, w2) =>
                  info = error_info app_id /\ w1 = w2
                  /\ app_details w1 = app_details w
                  /\ app_details w1 !! app_id = None
                  /\ get_application_details app_id w1 =
                     match lookup_application app_id w1 with
                     | (Raise _, w3) => (Ret (error_info app_id), w3)
                     | r => r
                     end
              | (OutOfFuel, _) => False
              end)).
  { intros (info & w1 & HA & HB & HC & HD). exists info, w1.
    split; [exact HA|]. split; [exact HB|]. split; [exact HC|].
    split; [exact HD|exact Hfetch]. }
  clear Hfetch.
  destruct (app_details w !! app_id) as [cached|] eqn:E.
  - exists cached, w. rewrite (get_application_details_hit _ _ _ E).
    split; [reflexivity|]. split; [|split; [auto|discriminate]].
    left. split; [exact E|reflexivity].
  - rewrite (get_application_details_miss _ _ E).
    pose proof (lookup_application_traffic app_id w) as Ht. cbv zeta in Ht.
    destruct (lookup_application_cases app_id w)
      as [(info & w1 & Hl & Hc & _)|(e & w1 & Hl & Hc & _)];
      rewrite Hl in Ht |- *; simpl in Ht.
    + exists info, w1. split; [reflexivity|].
      assert (Hin : app_details w1 !! app_id = Some info).
      { rewrite Hc. apply lookup_insert_eq. }
      split; [|split; [exact Ht|]].
      * left. split; [exact Hin|]. by apply get_application_details_hit.
      * intros _. auto.
    + exists (error_info app_id), w1. split; [reflexivity|].
      assert (Hnone : app_details w1 !! app_id = None) by (by rewrite Hc).
      split; [|split; [exact Ht|]].
      * right. split; [reflexivity|]. split; [by exists e|]. auto.
      * intros _. repeat split; auto.
        by apply get_application_details_miss.
Qed.

(** A status other than 200, 429 and 503 comes back from the fetcher at
    once: one request, no wait. *)
Lemma fetcher_returns_hard_error url headers params max_retries w r :
  0 <= max_retries ->
  net w (length (requests_log w)) (mkRequest url headers params) = Answer r ->
  status_code r <> 200 ->
  is_throttle (status_code r) = false ->
  _make_graph_request_with_retry url headers params max_retries w =
  (Ret r, log_request (mkRequest url headers params) w).
Proof.
  intros Hmax Hnet H200 Hth. unfold _make_graph_request_with_retry.
  replace (Z.to_nat (max_retries + 1)) with (S (Z.to_nat max_retries)) by lia.
  simpl. destruct (0 <=? max_retries) eqn:E; [|lia].
  unfold bind. rewrite attempt_eq. cbv zeta. rewrite Hnet.
  destruct (status_code r =? 200) eqn:E2; [lia|]. by rewrite Hth.
Qed.

(** C10: when the lookup's call of the fetcher completes with a status other
    than 200, [get_application_details] stores the "Unknown (Not found in
    tenant)" placeholder in the cache and returns it; that placeholder is not
    the "Error fetching details" one.  A status such as 403 completes the
    call at its first request.  The error placeholder comes from the handler
    alone: on a cache miss the result is left out of the cache exactly when
    the lookup raised. *)
Theorem hard_error_is_not_found
        (w : World) (app_id : string) (r : Response) (wf : World) :
  app_details w !! app_id = None ->
  lookup_fetch app_id w = (Ret r, wf) ->
  status_code r <> 200 ->
  get_application_details app_id w =
    (Ret (not_found_info app_id), cache_store app_id (not_found_info app_id) wf)
  /\ app_details (cache_store app_id (not_found_info app_id) wf) !! app_id
     = Some (not_found_info app_id)
  /\ not_found_info app_id <> error_info app_id
  /\ (forall w0 a r0,
         net w0 (length (requests_log w0))
             (mkRequest service_principals_url (auth_headers (access_token w0))
                        (Some (lookup_params a))) = Answer r0 ->
         status_code r0 <> 200 ->
         is_throttle (status_code r0) = false ->
         lookup_fetch a w0 =
         (Ret r0,
          log_request (mkRequest service_principals_url
                         (auth_headers (access_token w0))
                         (Some (lookup_params a))) w0))
  /\ (forall w0 a,
         app_details w0 !! a = None ->
         ((exists e w1, lookup_application a w0 = (Raise e, w1))
          <-> app_details (snd (get_application_details a w0)) !! a = None)).
Proof.
  intros Hmiss Hfetch H200.
  split; [|split; [|split; [|split]]];
    [| | |intros w0 a r0 Hnet Hs Ht; apply fetcher_returns_hard_error;
           [unfold default_max_retries; lia|exact Hnet|exact Hs|exact Ht]|].
  - rewrite (get_application_details_miss _ _ Hmiss), lookup_application_eq, Hfetch.
    destruct (status_code r =? 200) eqn:E; [lia|reflexivity].
  - simpl. apply lookup_insert_eq.
  - discriminate.
  - intros w0 a Hm. rewrite (get_application_details_miss _ _ Hm).
    destruct (lookup_application_cases a w0)
      as [(info & w1 & Hl & Hc & _)|(e & w1 & Hl & Hc & _)]; rewrite Hl; simpl.
    + rewrite Hc, lookup_insert_eq. split; [|discriminate].
      intros (e & w2 & H). discriminate.
    + rewrite Hc. split; [auto|]. intros _. by exists e, w1.
Qed.

Lemma hard_error_is_not_found_witness :
  get_application_details "app-a" forbidden_lookup_world =
    (Ret (not_found_info "app-a"),
     cache_store "app-a" (not_found_info "app-a")
       (log_request (mkRequest service_principals_url (auth_headers "token")
                       (Some (lookup_params "app-a")))
                    forbidden_lookup_world))
  /\ length (requests_log
               (snd (get_application_details "app-a" forbidden_lookup_world)))
     = 1%nat.
Proof.
  split; [|vm_compute; reflexivity].
  apply (hard_error_is_not_found forbidden_lookup_world "app-a"
           (mkResponse 403 None "Forbidden" None)).
  - reflexivity.
  - vm_compute. reflexivity.
  - simpl. lia.
Defined.

(** ** The waits of the fetcher *)

Lemma int_empty : Py.int "" = None.
Proof. reflexivity. Qed.

(** The wait computed by the code is the wait of the policy. *)
Lemma throttle_wait_is_policy retry_after attempt_no :
  throttle_wait retry_after attempt_no = policy_wait retry_after attempt_no.
Proof.
  unfold throttle_wait, policy_wait, base_delay.
  destruct retry_after as [s|]; simpl; [|reflexivity].
  destruct s as [|c s]; simpl Py.truthy_str; cbv iota.
  - by rewrite int_empty.
  - by destruct (Py.int (String c s)).
Qed.

Lemma is_throttle_not_200 status :
  is_throttle status = true -> (status =? 200) = false.
Proof.
  unfold is_throttle. intros H. apply orb_true_iff in H.
  destruct H as [H|H]; apply Z.eqb_eq in H; subst; reflexivity.
Qed.

(** C6 as stated fails for a negative Retry-After: "-5" reads as the integer
    -5, and the fetcher then neither waits nor retries; [time.sleep] refuses
    the negative length and its [ValueError] leaves the fetcher. *)
Lemma negative_retry_after_raises :
  ~ honours_retry_after negative_retry_after_world "https://example.test/"
      [] None default_max_retries
  /\ (let fetched :=
        _make_graph_request_with_retry "https://example.test/" [] None
          default_max_retries negative_retry_after_world in
      Py.int "-5" = Some (-5)
      /\ fst fetched = Raise SleepValueError
      /\ sleeps_log (snd fetched) = []
      /\ length (requests_log (snd fetched)) = 1%nat).
Proof.
  split.
  - intros H.
    specialize (H (mkResponse 429 (Some "-5") "" None) "-5" (-5)
                  eq_refl eq_refl eq_refl eq_refl).
    assert (Hb : 1 <= default_max_retries) by (unfold default_max_retries; lia).
    specialize (H Hb). vm_compute in H. discriminate.
  - repeat split; vm_compute; reflexivity.
Qed.

(** C6, amended: for a 429 or 503 response received within the budget whose
    Retry-After, if it reads as an integer, is not negative, the pass through
    the loop waits exactly the wait of the policy and the loop goes on with
    the next attempt: the integer itself, at most 120, when Retry-After reads
    as one; [1 * 2^(attempt-1)], at most 120, when it is absent or does not
    read as an integer. *)
Theorem throttle_wait_policy
        (w : World) (url : string) (headers : list (string * string))
        (params : option (list (string * string)))
        (max_retries retry_count : Z) (r : Response) (fuel : nat) :
  net w (length (requests_log w)) (mkRequest url headers params) = Answer r ->
  is_throttle (status_code r) = true ->
  0 <= retry_count ->
  retry_count + 1 <= max_retries ->
  (forall s n, retry_after r = Some s -> Py.int s = Some n -> 0 <= n) ->
  let rq := mkRequest url headers params in
  let attempt_no := retry_count + 1 in
  let wait := policy_wait (retry_after r) attempt_no in
  attempt url headers params max_retries retry_count w =
    (Ret (Continue attempt_no), log_sleep wait (log_request rq w))
  /\ retry_loop (S fuel) url headers params max_retries retry_count w =
     retry_loop fuel url headers params max_retries attempt_no
                (log_sleep wait (log_request rq w))
  /\ (forall s n, retry_after r = Some s -> Py.int s = Some n ->
                  wait = Z.min n 120)
  /\ (retry_after r ≫= Py.int = None ->
      wait = Z.min (1 * 2 ^ (attempt_no - 1)) 120).
Proof.
  intros Hnet Hth Hrc Hbudget Hnonneg rq attempt_no wait.
  assert (Hwait : 0 <= wait).
  { subst wait. unfold policy_wait.
    destruct (retry_after r) as [s|] eqn:Es; simpl.
    - destruct (Py.int s) as [n|] eqn:En.
      + specialize (Hnonneg s n eq_refl En). lia.
      + apply (pow2_wait_nonneg (attempt_no - 1)).
    - apply (pow2_wait_nonneg (attempt_no - 1)). }
  assert (Ha : attempt url headers params max_retries retry_count w =
               (Ret (Continue attempt_no), log_sleep wait (log_request rq w))).
  { rewrite attempt_eq. cbv zeta. rewrite Hnet.
    rewrite (is_throttle_not_200 _ Hth), Hth.
    destruct (retry_count + 1 >? max_retries) eqn:E; [lia|].
    rewrite throttle_wait_is_policy. fold attempt_no. fold wait.
    destruct (wait <? 0) eqn:E2; [lia|reflexivity]. }
  split; [exact Ha|]. split; [|split].
  - simpl. destruct (retry_count <=? max_retries) eqn:E; [|lia].
    unfold bind. by rewrite Ha.
  - intros s n Hs Hn. subst wait. unfold policy_wait. rewrite Hs. simpl.
    by rewrite Hn.
  - intros Hnone. subst wait. unfold policy_wait. by rewrite Hnone.
Qed.

Lemma throttle_wait_policy_witness :
  attempt "https://example.test/" [] None default_max_retries 0
          retry_after_5_world =
  (Ret (Continue 1),
   log_sleep 5 (log_request (mkRequest "https://example.test/" [] None)
                            retry_after_5_world)).
Proof.
  apply (throttle_wait_policy retry_after_5_world "https://example.test/" []
           None default_max_retries 0 (mkResponse 429 (Some "5") "" None) 0).
  - reflexivity.
  - reflexivity.
  - lia.
  - unfold default_max_retries. lia.
  - intros s n Hs Hn. injection Hs as <-. vm_compute in Hn.
    injection Hn as <-. lia.
Defined.

(** A 429 with Retry-After 5 makes the fetcher wait 5 seconds, not 1, and
    ask again. *)
Example fetch_retry_after_5 :
  let fetched :=
    _make_graph_request_with_retry "https://example.test/" [] None
      default_max_retries retry_after_5_world in
  fst fetched = Ret (mkResponse 200 None "" (Some example_page2))
  /\ sleeps_log (snd fetched) = [5]
  /\ length (requests_log (snd fetched)) = 2%nat.
Proof. repeat split; vm_compute; reflexivity. Qed.

(** ** Exhausting the retry budget *)

Lemma log_traffic_first rq w : log_request rq w = log_traffic [rq] [] w.
Proof. unfold log_request, log_traffic. by rewrite app_nil_r. Qed.

Lemma log_traffic_next rq t rqs waits w :
  log_traffic rqs waits (log_sleep t (log_request rq w)) =
  log_traffic (rq :: rqs) (t :: waits) w.
Proof.
  unfold log_traffic, log_sleep, log_request. simpl.
  by rewrite <- !app_assoc.
Qed.

(** With [k] retries left and every response throttled without Retry-After,
    the loop makes [k + 1] requests, waits [k] times with doubling waits
    capped at 120, and raises. *)
Lemma retry_loop_exhausts url headers params max_retries :
  forall (k : nat) (retry_count : Z) (fuel : nat) (w : World),
    0 <= retry_count ->
    retry_count + Z.of_nat k = max_retries ->
    (k < fuel)%nat ->
    (forall i, (i <= k)%nat ->
       exists r,
         net w (length (requests_log w) + i) (mkRequest url headers params)
           = Answer r
         /\ is_throttle (status_code r) = true /\ retry_after r = None) ->
    retry_loop fuel url headers params max_retries retry_count w =
    (Raise (MaxRetriesExceeded max_retries url),
     log_traffic (repeat (mkRequest url headers params) (S k))
       (map (fun i => Z.min (2 ^ (retry_count + Z.of_nat i)) 120) (seq 0 k)) w).
Proof.
  induction k as [|k IH]; intros rc fuel w Hrc Hmax Hfuel Hnet;
    (destruct fuel as [|fuel]; [lia|]);
    destruct (Hnet 0%nat ltac:(lia)) as (r & Hr & Hth & Hra);
    rewrite Nat.add_0_r in Hr;
    simpl retry_loop;
    (destruct (rc <=? max_retries) eqn:E; [|lia]);
    unfold bind; rewrite attempt_eq; cbv zeta; rewrite Hr;
    rewrite (is_throttle_not_200 _ Hth), Hth.
  - destruct (rc + 1 >? max_retries) eqn:E2; [|lia].
    by rewrite log_traffic_first.
  - destruct (rc + 1 >? max_retries) eqn:E2; [lia|].
    rewrite Hra.
    assert (Ht : throttle_wait None (rc + 1) = Z.min (2 ^ rc) 120).
    { unfold throttle_wait, base_delay. simpl.
      replace (rc + 1 - 1) with rc by lia. by rewrite Z.mul_1_l. }
    rewrite Ht.
    destruct (Z.min (2 ^ rc) 120 <? 0) eqn:E3.
    { pose proof (pow2_wait_nonneg rc) as Hp. unfold base_delay in Hp.
      rewrite Z.mul_1_l in Hp. lia. }
    rewrite (IH (rc + 1) fuel); [| lia | lia | lia |].
    + rewrite log_traffic_next.
      replace (map (fun i => Z.min (2 ^ (rc + Z.of_nat i)) 120) (seq 0 (S k)))
        with (Z.min (2 ^ rc) 120
              :: map (fun i => Z.min (2 ^ (rc + 1 + Z.of_nat i)) 120) (seq 0 k));
        [reflexivity|].
      change (seq 0 (S k)) with (0%nat :: seq 1 k).
      rewrite <- List.seq_shift.
      rewrite (List.map_cons _ 0%nat), List.map_map.
      change (Z.of_nat 0) with 0. rewrite Z.add_0_r. f_equal.
      apply map_ext. intros i. f_equal. f_equal. lia.
    + intros i Hi. simpl requests_log. rewrite length_app. simpl.
      destruct (Hnet (S i) ltac:(lia)) as (r' & Hr' & Hth' & Hra').
      exists r'. replace (length (requests_log w) + 1 + i)%nat
        with (length (requests_log w) + S i)%nat by lia. auto.
Qed.

(** C7 as stated fails in one point: the exception raised when throttling
    exhausts the budget is built from the budget and the URL alone, so a run
    of 429 responses and a run of 503 responses end in the same exception,
    which cannot tell the last status. *)
Lemma exhaustion_forgets_status :
  ~ exhaustion_carries_status
  /\ fst (_make_graph_request_with_retry "https://example.test/" [] None 3
            (exhausted_world 429))
     = Raise (MaxRetriesExceeded 3 "https://example.test/")
  /\ fst (_make_graph_request_with_retry "https://example.test/" [] None 3
            (exhausted_world 503))
     = Raise (MaxRetriesExceeded 3 "https://example.test/").
Proof.
  split; [|split; vm_compute; reflexivity].
  intros [status_of H].
  pose proof (H 429 _ _ eq_refl
                (surjective_pairing
                   (_make_graph_request_with_retry "https://example.test/" []
                      None 3 (exhausted_world 429)))) as H1.
  pose proof (H 503 _ _ eq_refl
                (surjective_pairing
                   (_make_graph_request_with_retry "https://example.test/" []
                      None 3 (exhausted_world 503)))) as H2.
  vm_compute in H1, H2. congruence.
Qed.

(** C7, amended: when every response of one fetch is a 429 (or a 503)
    without Retry-After, the fetcher retries as many times as the budget
    allows, waiting 1, 2, 4, 8, ... seconds, at most 120, before the
    successive retries, and after the response to the last retry it raises
    an exception made of the budget and the URL.  It has then made one
    request more than the budget.  A budget of 3 gives the waits 1, 2, 4 and
    the default budget of 8 gives 1, 2, 4, 8, 16, 32, 64, 120. *)
Theorem retry_budget_exhausted
        (w : World) (url : string) (headers : list (string * string))
        (params : option (list (string * string))) (max_retries : Z) :
  0 <= max_retries ->
  (forall i, (i <= Z.to_nat max_retries)%nat ->
     exists r,
       net w (length (requests_log w) + i) (mkRequest url headers params)
         = Answer r
       /\ is_throttle (status_code r) = true /\ retry_after r = None) ->
  _make_graph_request_with_retry url headers params max_retries w =
    (Raise (MaxRetriesExceeded max_retries url),
     log_traffic (repeat (mkRequest url headers params)
                         (S (Z.to_nat max_retries)))
                 (backoff_waits (Z.to_nat max_retries)) w)
  /\ length (backoff_waits (Z.to_nat max_retries)) = Z.to_nat max_retries
  /\ backoff_waits 3 = [1; 2; 4]
  /\ backoff_waits (Z.to_nat default_max_retries) = [1; 2; 4; 8; 16; 32; 64; 120].
Proof.
  intros Hmax Hnet. split; [|split; [|split; reflexivity]].
  - unfold _make_graph_request_with_retry.
    rewrite (retry_loop_exhausts url headers params max_retries
               (Z.to_nat max_retries) 0 _ w); [reflexivity|lia|lia|lia|exact Hnet].
  - unfold backoff_waits. by rewrite length_map, length_seq.
Qed.

Lemma retry_budget_exhausted_witness :
  _make_graph_request_with_retry "https://example.test/" [] None 3
    (exhausted_world 429) =
  (Raise (MaxRetriesExceeded 3 "https://example.test/"),
   log_traffic (repeat (mkRequest "https://example.test/" [] None) 4)
               [1; 2; 4] (exhausted_world 429)).
Proof.
  apply (retry_budget_exhausted (exhausted_world 429) "https://example.test/"
           [] None 3).
  - lia.
  - intros i Hi. exists (mkResponse 429 None "" None).
    assert (i = 0 \/ i = 1 \/ i = 2 \/ i = 3)%nat as [ -> | [ -> | [ -> | -> ] ] ]
      by (simpl in Hi; lia); repeat split; reflexivity.
Defined.

(** * Further properties of the code *)

(** ** The fetcher, whatever the network does *)

Lemma log_traffic_nil w : log_traffic [] [] w = w.
Proof. destruct w. unfold log_traffic. simpl. by rewrite !app_nil_r. Qed.

Lemma log_traffic_traffic rqs1 waits1 rqs2 waits2 w :
  log_traffic rqs2 waits2 (log_traffic rqs1 waits1 w) =
  log_traffic (rqs1 ++ rqs2) (waits1 ++ waits2) w.
Proof. unfold log_traffic. simpl. by rewrite !app_assoc. Qed.

Lemma throttle_wait_le retry_after attempt_no :
  throttle_wait retry_after attempt_no <= 120.
Proof. unfold throttle_wait. apply Z.le_min_r. Qed.

Lemma network_wait_le attempt_no : network_wait attempt_no <= 120.
Proof. unfold network_wait. apply Z.le_min_r. Qed.

Lemma is_throttle_200 status : (status =? 200) = true -> is_throttle status = false.
Proof. intros H. apply Z.eqb_eq in H. by subst. Qed.

(** The trace of the retry loop: the requests it makes are all the same, the
    waits it performs are between 0 and 120 seconds, and its outcome is
    decided by the last reply. *)
Lemma retry_loop_trace url headers params max_retries :
  let rq := mkRequest url headers params in
  forall fuel retry_count w,
    max_retries + 1 - retry_count <= Z.of_nat fuel ->
    exists n waits,
      snd (retry_loop fuel url headers params max_retries retry_count w)
      = log_traffic (repeat rq n) waits w
      /\ Forall (fun t => 0 <= t <= 120) waits
      /\ Z.of_nat n <= Z.max 0 (max_retries + 1 - retry_count)
      /\ fetch_verdict w rq max_retries retry_count
           (fst (retry_loop fuel url headers params max_retries retry_count w))
           n waits.
Proof.
  intros rq. induction fuel as [|fuel IH]; intros rc w Hfuel.
  - simpl. destruct (rc <=? max_retries) eqn:E; [lia|].
    exists 0%nat, []. simpl. rewrite log_traffic_nil.
    repeat split; auto; lia.
  - simpl. destruct (rc <=? max_retries) eqn:E.
    2:{ exists 0%nat, []. simpl. rewrite log_traffic_nil.
        repeat split; auto; lia. }
    unfold bind. rewrite attempt_eq. cbv zeta. fold rq.
    destruct (net w (length (requests_log w)) rq) as [r|e] eqn:Hnet.
    + destruct (status_code r =? 200) eqn:E200.
      { exists 1%nat, []. simpl. rewrite log_traffic_first.
        rewrite Nat.add_0_r, Hnet. repeat split; auto; [lia|].
        by apply is_throttle_200. }
      destruct (is_throttle (status_code r)) eqn:Eth.
      2:{ exists 1%nat, []. simpl. rewrite log_traffic_first.
          rewrite Nat.add_0_r, Hnet. repeat split; auto. lia. }
      destruct (rc + 1 >? max_retries) eqn:Emax.
      { exists 1%nat, []. simpl. rewrite log_traffic_first.
        rewrite Nat.add_0_r, Hnet. repeat split; auto; [lia|lia|]. eauto. }
      destruct (throttle_wait (retry_after r) (rc + 1) <? 0) eqn:Eneg.
      { exists 1%nat, []. simpl. rewrite log_traffic_first.
        rewrite Nat.add_0_r, Hnet. repeat split; auto; [lia|].
        exists r. repeat split; auto.
        change (Z.of_nat 1) with 1. lia. }
      destruct (IH (rc + 1)
                  (log_sleep (throttle_wait (retry_after r) (rc + 1))
                             (log_request rq w)) ltac:(lia))
        as (n & waits & Hw & Hf & Hn & Hv).
      exists (S n), (throttle_wait (retry_after r) (rc + 1) :: waits).
      split; [by rewrite Hw, log_traffic_next|].
      split.
      { constructor; [|exact Hf].
        pose proof (throttle_wait_le (retry_after r) (rc + 1)). lia. }
      split; [lia|].
      revert Hv. unfold fetch_verdict. simpl net. simpl requests_log.
      rewrite length_app. simpl length.
      replace (length (requests_log w) + 1 + length waits)%nat
        with (length (requests_log w) + S (length waits))%nat by lia.
      destruct (fst (retry_loop fuel url headers params max_retries (rc + 1) _))
        as [r'|[]|]; intros Hv; try exact Hv;
        repeat match goal with
        | H : _ /\ _ |- _ => destruct H
        | H : exists _, _ |- _ => destruct H
        end; subst; repeat split; eauto; try lia.
      eexists. repeat split; eauto.
      replace (rc + Z.of_nat (S (S (length waits))))
        with (rc + 1 + Z.of_nat (S (length waits))) by lia. assumption.
    + destruct (rc + 1 >? max_retries) eqn:Emax.
      { exists 1%nat, []. simpl. rewrite log_traffic_first.
        rewrite Nat.add_0_r, Hnet. repeat split; auto; lia. }
      destruct (IH (rc + 1)
                  (log_sleep (network_wait (rc + 1)) (log_request rq w))
                  ltac:(lia))
        as (n & waits & Hw & Hf & Hn & Hv).
      exists (S n), (network_wait (rc + 1) :: waits).
      split; [by rewrite Hw, log_traffic_next|].
      split.
      { constructor; [|exact Hf].
        pose proof (network_wait_le (rc + 1)).
        pose proof (network_wait_nonneg (rc + 1)). lia. }
      split; [lia|].
      revert Hv. unfold fetch_verdict. simpl net. simpl requests_log.
      rewrite length_app. simpl length.
      replace (length (requests_log w) + 1 + length waits)%nat
        with (length (requests_log w) + S (length waits))%nat by lia.
      destruct (fst (retry_loop fuel url headers params max_retries (rc + 1) _))
        as [r'|[]|]; intros Hv; try exact Hv;
        repeat match goal with
        | H : _ /\ _ |- _ => destruct H
        | H : exists _, _ |- _ => destruct H
        end; subst; repeat split; eauto; try lia.
      eexists. repeat split; eauto.
      replace (rc + Z.of_nat (S (S (length waits))))
        with (rc + 1 + Z.of_nat (S (length waits))) by lia. assumption.
Qed.

Lemma fetcher_trace url headers params max_retries w :
  let rq := mkRequest url headers params in
  exists n waits,
    snd (_make_graph_request_with_retry url headers params max_retries w)
    = log_traffic (repeat rq n) waits w
    /\ Forall (fun t => 0 <= t <= 120) waits
    /\ Z.of_nat n <= Z.max 0 (max_retries + 1)
    /\ fetch_verdict w rq max_retries 0
         (fst (_make_graph_request_with_retry url headers params max_retries w))
         n waits.
Proof.
  intros rq. unfold _make_graph_request_with_retry.
  destruct (retry_loop_trace url headers params max_retries
              (Z.to_nat (max_retries + 1)) 0 w ltac:(lia))
    as (n & waits & Hw & Hf & Hn & Hv).
  exists n, waits. rewrite Z.sub_0_r in Hn. auto.
Qed.

Lemma fetch_verdict_waits w rq max_retries res n waits :
  fetch_verdict w rq max_retries 0 res n waits ->
  Z.of_nat n <= Z.max 0 (max_retries + 1) ->
  (length waits <= n)%nat /\ Z.of_nat (length waits) <= Z.max 0 max_retries.
Proof.
  unfold fetch_verdict. destruct res as [r|[]|]; intros Hv Hn;
    repeat match goal with
    | H : _ /\ _ |- _ => destruct H
    | H : False |- _ => destruct H
    end; subst; simpl; lia.
Qed.

(** X1: whatever the network answers, one call of the fetcher repeats one and
    the same request at most [max_retries + 1] times, sleeps at most
    [max_retries] times, never more often than it asks, and every sleep lasts
    between 0 and 120 seconds; nothing else of the world changes. *)
Theorem fetcher_bounds
        (url : string) (headers : list (string * string))
        (params : option (list (string * string))) (max_retries : Z) (w : World) :
  exists n waits,
    snd (_make_graph_request_with_retry url headers params max_retries w)
    = log_traffic (repeat (mkRequest url headers params) n) waits w
    /\ Z.of_nat n <= Z.max 0 (max_retries + 1)
    /\ (length waits <= n)%nat
    /\ Z.of_nat (length waits) <= Z.max 0 max_retries
    /\ Forall (fun t => 0 <= t <= 120) waits.
Proof.
  destruct (fetcher_trace url headers params max_retries w)
    as (n & waits & Hw & Hf & Hn & Hv).
  destruct (fetch_verdict_waits _ _ _ _ _ _ Hv Hn) as [H1 H2].
  exists n, waits. auto.
Qed.

(** X2: a response that the fetcher hands back is never a 429 or a 503.  It
    is the reply to the last request of the call, and each earlier request of
    the call was followed by one wait. *)
Theorem fetcher_returns_final_answer
        (url : string) (headers : list (string * string))
        (params : option (list (string * string))) (max_retries : Z)
        (w w' : World) (r : Response) :
  _make_graph_request_with_retry url headers params max_retries w = (Ret r, w') ->
  is_throttle (status_code r) = false
  /\ exists waits,
       w' = log_traffic (repeat (mkRequest url headers params) (S (length waits)))
                        waits w
       /\ net w (length (requests_log w) + length waits)
              (mkRequest url headers params) = Answer r.
Proof.
  intros H.
  destruct (fetcher_trace url headers params max_retries w)
    as (n & waits & Hw & _ & _ & Hv).
  rewrite H in Hw, Hv. simpl in Hw, Hv. destruct Hv as (-> & Hlast & Hth).
  split; [exact Hth|]. exists waits. auto.
Qed.

Lemma fetcher_returns_final_answer_witness :
  is_throttle 200 = false
  /\ exists waits,
       snd (_make_graph_request_with_retry "https://example.test/" [] None
              default_max_retries retry_after_5_world)
       = log_traffic (repeat (mkRequest "https://example.test/" [] None)
                             (S (length waits)))
                     waits retry_after_5_world
       /\ net retry_after_5_world
              (length (requests_log retry_after_5_world) + length waits)
              (mkRequest "https://example.test/" [] None)
          = Answer (mkResponse 200 None "" (Some example_page2)).
Proof.
  apply (fetcher_returns_final_answer "https://example.test/" [] None
           default_max_retries retry_after_5_world
           (snd (_make_graph_request_with_retry "https://example.test/" [] None
                   default_max_retries retry_after_5_world))
           (mkResponse 200 None "" (Some example_page2))).
  vm_compute. reflexivity.
Defined.

(** X3: the fetcher raises in four ways only.  With a negative budget it
    raises at once, without a request.  Otherwise it raises after the reply to
    its last request: on a 429 or 503 or on a transport failure received at
    request number [max_retries + 1], after exactly [max_retries] waits, the
    exception for the transport failure carrying the message of that last
    failure; or when a 429 or 503 asks for a negative wait. *)
Theorem fetcher_raises_only
        (url : string) (headers : list (string * string))
        (params : option (list (string * string))) (max_retries : Z)
        (w w' : World) (e : exn) :
  _make_graph_request_with_retry url headers params max_retries w = (Raise e, w') ->
  let rq := mkRequest url headers params in
  (max_retries < 0 /\ e = RequestFailedAfterRetries max_retries /\ w' = w)
  \/ (0 <= max_retries
      /\ exists waits,
          let last := net w (length (requests_log w) + length waits) rq in
          w' = log_traffic (repeat rq (S (length waits))) waits w
          /\ ((e = MaxRetriesExceeded max_retries url
               /\ Z.of_nat (length waits) = max_retries
               /\ exists r, last = Answer r /\ is_throttle (status_code r) = true)
              \/ (exists msg, e = NetworkErrorAfterRetries max_retries msg
                              /\ Z.of_nat (length waits) = max_retries
                              /\ last = TransportFailure msg)
              \/ (e = SleepValueError
                  /\ exists r, last = Answer r
                               /\ is_throttle (status_code r) = true
                               /\ throttle_wait (retry_after r)
                                    (Z.of_nat (S (length waits))) < 0))).
Proof.
  intros H rq.
  destruct (fetcher_trace url headers params max_retries w)
    as (n & waits & Hw & _ & Hn & Hv).
  rewrite H in Hw, Hv. simpl in Hw, Hv. fold rq in Hw, Hv.
  unfold fetch_verdict in Hv.
  destruct e; try (destruct Hv; fail).
  - destruct Hv as (-> & -> & -> & Hc & r & Hl & Ht).
    right. split; [lia|]. exists waits. split; [exact Hw|].
    left. repeat split; [lia|]. eauto.
  - destruct Hv as (-> & -> & Hc & Hl).
    right. split; [lia|]. exists waits. split; [exact Hw|].
    right; left. exists e. repeat split; [lia|exact Hl].
  - destruct Hv as (-> & -> & -> & Hlt).
    left. rewrite log_traffic_nil in Hw. auto.
  - destruct Hv as (-> & r & Hl & Ht & Hneg).
    right. split; [lia|]. exists waits. split; [exact Hw|].
    right; right. split; [reflexivity|]. exists r. auto.
Qed.

Lemma fetcher_raises_only_witness :
  let rq := mkRequest "https://example.test/" [] None in
  let w := unreachable_world in
  let w' := snd (_make_graph_request_with_retry "https://example.test/" [] None
                   2 unreachable_world) in
  let e := NetworkErrorAfterRetries 2 "timeout 3" in
  (2 < 0 /\ e = RequestFailedAfterRetries 2 /\ w' = w)
  \/ (0 <= 2
      /\ exists waits,
          let last := net w (length (requests_log w) + length waits) rq in
          w' = log_traffic (repeat rq (S (length waits))) waits w
          /\ ((e = MaxRetriesExceeded 2 "https://example.test/"
               /\ Z.of_nat (length waits) = 2
               /\ exists r, last = Answer r /\ is_throttle (status_code r) = true)
              \/ (exists msg, e = NetworkErrorAfterRetries 2 msg
                              /\ Z.of_nat (length waits) = 2
                              /\ last = TransportFailure msg)
              \/ (e = SleepValueError
                  /\ exists r, last = Answer r
                               /\ is_throttle (status_code r) = true
                               /\ throttle_wait (retry_after r)
                                    (Z.of_nat (S (length waits))) < 0))).
Proof.
  apply (fetcher_raises_only "https://example.test/" [] None 2
           unreachable_world
           (snd (_make_graph_request_with_retry "https://example.test/" [] None
                   2 unreachable_world))
           (NetworkErrorAfterRetries 2 "timeout 3")).
  vm_compute. reflexivity.
Defined.

(** X4: the exception of the last line of the fetcher, "Request failed
    after ... retries", is raised exactly when the budget is negative, and
    then no request is made; with a budget of 0 or more that line is never
    reached. *)
Theorem request_failed_iff_negative_budget
        (url : string) (headers : list (string * string))
        (params : option (list (string * string))) (max_retries : Z) (w : World) :
  (fst (_make_graph_request_with_retry url headers params max_retries w)
   = Raise (RequestFailedAfterRetries max_retries)
   <-> max_retries < 0)
  /\ (max_retries < 0 ->
      _make_graph_request_with_retry url headers params max_retries w
      = (Raise (RequestFailedAfterRetries max_retries), w)).
Proof.
  assert (Hneg : max_retries < 0 ->
                 _make_graph_request_with_retry url headers params max_retries w
                 = (Raise (RequestFailedAfterRetries max_retries), w)).
  { intros Hlt. unfold _make_graph_request_with_retry.
    replace (Z.to_nat (max_retries + 1)) with 0%nat by lia. simpl.
    destruct (0 <=? max_retries) eqn:E; [lia|reflexivity]. }
  split; [|exact Hneg]. split.
  - intros H.
    destruct (fetcher_trace url headers params max_retries w)
      as (n & waits & _ & _ & _ & Hv).
    rewrite H in Hv. simpl in Hv. lia.
  - intros Hlt. by rewrite (Hneg Hlt).
Qed.

(** ** Runs of retries *)

Lemma repeat_snoc {A} (x : A) n : repeat x n ++ [x] = repeat x (S n).
Proof. induction n as [|n IH]; simpl; [reflexivity|]. by rewrite IH. Qed.

(** After replies that all ask for a retry within the budget the loop is
    where it would be had it been entered with that many retries counted. *)
Lemma retry_loop_run url headers params max_retries :
  let rq := mkRequest url headers params in
  forall replies retry_count fuel w,
    answers (net w) (length (requests_log w)) rq replies ->
    all_ask_retry replies (retry_count + 1) = true ->
    retry_count + Z.of_nat (length replies) <= max_retries ->
    retry_loop (length replies + fuel) url headers params max_retries
               retry_count w =
    retry_loop fuel url headers params max_retries
               (retry_count + Z.of_nat (length replies))
               (log_traffic (repeat rq (length replies))
                            (run_waits replies (retry_count + 1)) w).
Proof.
  intros rq. induction replies as [|reply rest IH]; intros rc fuel w Ha Hr Hb.
  - simpl. rewrite Z.add_0_r, log_traffic_nil. reflexivity.
  - destruct Ha as [Hnet Ha]. simpl in Hr. apply andb_true_iff in Hr as [Hr1 Hr].
    simpl length in *.
    change (S (length rest) + fuel)%nat with (S (length rest + fuel)).
    simpl retry_loop. destruct (rc <=? max_retries) eqn:E; [|lia].
    unfold bind. rewrite attempt_eq. cbv zeta. fold rq. rewrite Hnet.
    assert (Hstep : forall t,
               answers (net (log_sleep t (log_request rq w)))
                       (length (requests_log (log_sleep t (log_request rq w))))
                       rq rest).
    { intros t. simpl. rewrite length_app. simpl.
      by replace (length (requests_log w) + 1)%nat
        with (S (length (requests_log w))) by lia. }
    destruct (rc + 1 >? max_retries) eqn:Emax; [lia|].
    destruct reply as [r|e]; simpl in Hr1.
    + apply andb_true_iff in Hr1 as [Hth Hpos].
      rewrite (is_throttle_not_200 _ Hth), Hth.
      destruct (throttle_wait (retry_after r) (rc + 1) <? 0) eqn:Eneg; [lia|].
      rewrite (IH (rc + 1) fuel _ (Hstep _) Hr ltac:(lia)).
      rewrite log_traffic_next. simpl.
      by replace (rc + 1 + Z.of_nat (length rest))
        with (rc + Z.of_nat (S (length rest))) by lia.
    + rewrite (IH (rc + 1) fuel _ (Hstep _) Hr ltac:(lia)).
      rewrite log_traffic_next. simpl.
      by replace (rc + 1 + Z.of_nat (length rest))
        with (rc + Z.of_nat (S (length rest))) by lia.
Qed.

Lemma answers_app net rq replies1 : forall n replies2,
  answers net n rq (replies1 ++ replies2) <->
  answers net n rq replies1 /\ answers net (n + length replies1) rq replies2.
Proof.
  induction replies1 as [|reply rest IH]; intros n replies2; simpl.
  - rewrite Nat.add_0_r. tauto.
  - rewrite IH. replace (S n + length rest)%nat with (n + S (length rest))%nat
      by lia. tauto.
Qed.

(** X5: throttled responses and transport failures count against one budget.
    When the replies of a call first ask for retries, in any mix of 429, 503
    and transport failures and no more often than the budget allows, and then
    comes a response that is neither 429 nor 503, the fetcher returns that
    response; it has waited once after each earlier reply, the wait after
    the k-th of them being that of retry number k: the Retry-After value or
    [2^(k-1)] for a throttled response, [2^(k-1)] for a transport failure, at
    most 120. *)
Theorem fetcher_retries_then_returns
        (url : string) (headers : list (string * string))
        (params : option (list (string * string))) (max_retries : Z)
        (w : World) (replies : list Reply) (r : Response) :
  answers (net w) (length (requests_log w)) (mkRequest url headers params)
          (replies ++ [Answer r]) ->
  all_ask_retry replies 1 = true ->
  is_throttle (status_code r) = false ->
  Z.of_nat (length replies) <= max_retries ->
  _make_graph_request_with_retry url headers params max_retries w =
  (Ret r,
   log_traffic (repeat (mkRequest url headers params) (S (length replies)))
               (run_waits replies 1) w).
Proof.
  intros Ha Hr Hth Hb. apply answers_app in Ha as [Ha [Hlast _]].
  unfold _make_graph_request_with_retry.
  replace (Z.to_nat (max_retries + 1))
    with (length replies + S (Z.to_nat max_retries - length replies))%nat by lia.
  rewrite (retry_loop_run url headers params max_retries replies 0 _ w Ha Hr
             ltac:(lia)).
  simpl retry_loop.
  destruct (0 + Z.of_nat (length replies) <=? max_retries) eqn:E; [|lia].
  unfold bind. rewrite attempt_eq. cbv zeta.
  simpl net. simpl requests_log. rewrite length_app, repeat_length, Hlast, Hth.
  assert (Hw : log_request (mkRequest url headers params)
                 (log_traffic (repeat (mkRequest url headers params)
                                      (length replies))
                              (run_waits replies (0 + 1)) w)
               = log_traffic (repeat (mkRequest url headers params)
                                     (S (length replies)))
                             (run_waits replies 1) w).
  { rewrite log_traffic_first, log_traffic_traffic, repeat_snoc, app_nil_r.
    reflexivity. }
  rewrite Hw. by destruct (status_code r =? 200).
Qed.

Lemma fetcher_retries_then_returns_witness :
  _make_graph_request_with_retry "https://example.test/" [] None
    default_max_retries bumpy_world =
  (Ret (mkResponse 200 None "" (Some example_page2)),
   log_traffic (repeat (mkRequest "https://example.test/" [] None) 4)
               [3; 2; 4] bumpy_world).
Proof.
  apply (fetcher_retries_then_returns "https://example.test/" [] None
           default_max_retries bumpy_world bumpy_replies
           (mkResponse 200 None "" (Some example_page2))).
  - simpl. repeat split; reflexivity.
  - reflexivity.
  - reflexivity.
  - simpl. unfold default_max_retries. lia.
Defined.

(** X6: when the replies of a call ask for as many retries as the budget
    allows, in any mix, and the next request meets a transport failure, the
    fetcher gives up with the exception for network errors, which carries the
    message of that last failure; it has made one request more than the
    budget and waited as many times as the budget. *)
Theorem fetcher_gives_up_on_transport_failure
        (url : string) (headers : list (string * string))
        (params : option (list (string * string))) (max_retries : Z)
        (w : World) (replies : list Reply) (msg : string) :
  answers (net w) (length (requests_log w)) (mkRequest url headers params)
          (replies ++ [TransportFailure msg]) ->
  all_ask_retry replies 1 = true ->
  Z.of_nat (length replies) = max_retries ->
  _make_graph_request_with_retry url headers params max_retries w =
  (Raise (NetworkErrorAfterRetries max_retries msg),
   log_traffic (repeat (mkRequest url headers params) (S (length replies)))
               (run_waits replies 1) w).
Proof.
  intros Ha Hr Hb. apply answers_app in Ha as [Ha [Hlast _]].
  unfold _make_graph_request_with_retry.
  replace (Z.to_nat (max_retries + 1)) with (length replies + 1)%nat by lia.
  rewrite (retry_loop_run url headers params max_retries replies 0 _ w Ha Hr
             ltac:(lia)).
  simpl retry_loop.
  destruct (0 + Z.of_nat (length replies) <=? max_retries) eqn:E; [|lia].
  unfold bind. rewrite attempt_eq. cbv zeta.
  simpl net. simpl requests_log. rewrite length_app, repeat_length, Hlast.
  destruct (0 + Z.of_nat (length replies) + 1 >? max_retries) eqn:E2; [|lia].
  rewrite log_traffic_first, log_traffic_traffic, repeat_snoc, app_nil_r.
  reflexivity.
Qed.

Lemma fetcher_gives_up_on_transport_failure_witness :
  _make_graph_request_with_retry "https://example.test/" [] None 2
    unreachable_world =
  (Raise (NetworkErrorAfterRetries 2 "timeout 3"),
   log_traffic (repeat (mkRequest "https://example.test/" [] None) 3)
               [1; 2] unreachable_world).
Proof.
  apply (fetcher_gives_up_on_transport_failure "https://example.test/" [] None
           2 unreachable_world
           [TransportFailure "timeout 1"; TransportFailure "timeout 2"]
           "timeout 3").
  - simpl. repeat split; reflexivity.
  - reflexivity.
  - reflexivity.
Defined.

(** ** The paginator, whatever the network does *)

(** The loop only adds page requests to the world. *)
Lemma pages_loop_traffic token :
  forall fuel url acc w,
    exists links,
      snd (pages_loop fuel (auth_headers token) url acc w)
      = log_requests (map (page_request token) links) w
      /\ (length links <= fuel)%nat
      /\ (links = [] \/ head links = Some url).
Proof.
  induction fuel as [|fuel IH]; intros url acc w.
  - exists []. simpl. destruct (Py.truthy url); simpl;
      rewrite log_requests_nil; auto.
  - destruct (Py.truthy url) eqn:Ht.
    + rewrite (pages_loop_step _ _ _ _ _ Ht). cbv zeta.
      fold (page_request token url).
      assert (H1 : forall res : result (list pydict),
                 exists links,
                   snd (res, log_request (page_request token url) w)
                   = log_requests (map (page_request token) links) w
                   /\ (length links <= S fuel)%nat
                   /\ (links = [] \/ head links = Some url)).
      { intros res. exists [url]. simpl. split; [reflexivity|].
        split; [lia|auto]. }
      destruct (net w _ _) as [r|e]; [|apply H1].
      destruct (negb (status_code r =? 200)); [apply H1|].
      destruct (json_body r) as [data|]; [|apply H1].
      destruct (IH (body_nextLink data) (acc ++ page_items data)
                   (log_request (page_request token url) w))
        as (links & Hw & Hl & _).
      exists (url :: links). rewrite Hw. simpl map.
      rewrite log_requests_cons. split; [reflexivity|].
      split; [simpl; lia|auto].
    + rewrite (pages_loop_stop _ _ _ _ _ Ht). exists []. simpl.
      rewrite log_requests_nil. split; [reflexivity|]. split; [lia|auto].
Qed.

(** X7: the listing never sleeps and never touches the cache of
    applications.  All it does to the world, besides storing its result, is
    to issue requests without query parameters that carry the bearer token:
    at most one for each pass of its loop, the first of them to
    [/subscriptions]. *)
Theorem listing_only_requests_pages (fuel : nat) (w : World) :
  let w' := snd (get_all_subscriptions fuel w) in
  sleeps_log w' = sleeps_log w
  /\ app_details w' = app_details w
  /\ access_token w' = access_token w
  /\ exists links,
       requests_log w'
       = requests_log w ++ map (page_request (access_token w)) links
       /\ (length links <= fuel)%nat
       /\ (links = [] \/ head links = Some (Some subscriptions_url)).
Proof.
  cbv zeta. rewrite get_all_subscriptions_eq.
  destruct (pages_loop_traffic (access_token w) fuel (Some subscriptions_url)
              [] w) as (links & Hw & Hl & Hh).
  destruct (pages_loop _ _ _ _ w) as [[l|e|] w1]; simpl in Hw; subst w1; simpl;
    repeat split; eauto.
Qed.

(** X8: nothing bounds the number of pages and nothing detects a link seen
    before.  Against a network whose every reply is a page with a
    continuation link the loop never ends: however many passes it is
    allowed, it has made that many requests, is still asking, and has stored
    nothing. *)
Theorem listing_follows_links_forever (w : World) :
  (forall n rq, exists r page,
      net w n rq = Answer r /\ status_code r = 200
      /\ json_body r = Some page /\ has_next page = true) ->
  forall fuel,
    fst (get_all_subscriptions fuel w) = OutOfFuel
    /\ length (requests_log (snd (get_all_subscriptions fuel w)))
       = (length (requests_log w) + fuel)%nat
    /\ subscriptions (snd (get_all_subscriptions fuel w)) = subscriptions w.
Proof.
  intros Hnet fuel. rewrite get_all_subscriptions_eq.
  assert (H : forall fuel url acc w0,
             net w0 = net w -> Py.truthy url = true ->
             fst (pages_loop fuel (auth_headers (access_token w)) url acc w0)
             = OutOfFuel
             /\ length (requests_log
                          (snd (pages_loop fuel (auth_headers (access_token w))
                                           url acc w0)))
                = (length (requests_log w0) + fuel)%nat
             /\ subscriptions
                  (snd (pages_loop fuel (auth_headers (access_token w)) url
                                   acc w0))
                = subscriptions w0).
  { clear fuel. induction fuel as [|fuel IH]; intros url acc w0 Hn Ht.
    - simpl. rewrite Ht. simpl. repeat split; lia.
    - rewrite (pages_loop_step _ _ _ _ _ Ht). cbv zeta. rewrite Hn.
      destruct (Hnet (length (requests_log w0))
                  (mkRequest (default "" url) (auth_headers (access_token w)) None))
        as (r & page & -> & H200 & Hj & Hnext).
      rewrite H200, Hj. simpl negb. cbv iota.
      destruct (IH (body_nextLink page) (acc ++ page_items page)
                   (log_request
                      (mkRequest (default "" url)
                                 (auth_headers (access_token w)) None) w0)
                   Hn Hnext) as (H1 & H2 & H3).
      split; [exact H1|]. split; [|exact H3].
      rewrite H2. simpl. rewrite length_app. simpl. lia. }
  destruct (H fuel (Some subscriptions_url) [] w eq_refl
              subscriptions_url_truthy) as (H1 & H2 & H3).
  destruct (pages_loop _ _ _ _ w) as [[l|e|] w1]; simpl in *; try discriminate.
  auto.
Qed.

Lemma listing_follows_links_forever_witness :
  fst (get_all_subscriptions 7 looping_world) = OutOfFuel
  /\ length (requests_log (snd (get_all_subscriptions 7 looping_world)))
     = (length (requests_log looping_world) + 7)%nat
  /\ subscriptions (snd (get_all_subscriptions 7 looping_world))
     = subscriptions looping_world.
Proof.
  apply (listing_follows_links_forever looping_world).
  intros n rq. exists (mkResponse 200 None "" (Some looping_page)), looping_page.
  repeat split; reflexivity.
Defined.

Lemma pages_loop_set_subscriptions old headers :
  forall fuel url acc w,
    pages_loop fuel headers url acc (set_subscriptions old w) =
    (fst (pages_loop fuel headers url acc w),
     set_subscriptions old (snd (pages_loop fuel headers url acc w))).
Proof.
  induction fuel as [|fuel IH]; intros url acc w.
  - simpl. by destruct (Py.truthy url).
  - destruct (Py.truthy url) eqn:Ht.
    + rewrite !(pages_loop_step _ _ _ _ _ Ht). cbv zeta. simpl net.
      simpl requests_log.
      destruct (net w _ _) as [r|e]; [|reflexivity].
      destruct (negb (status_code r =? 200)); [reflexivity|].
      destruct (json_body r) as [data|]; [|reflexivity].
      apply (IH (body_nextLink data) (acc ++ page_items data)
                (log_request (mkRequest (default "" url) headers None) w)).
    + by rewrite !(pages_loop_stop _ _ _ _ _ Ht).
Qed.

(** X9: a listing does not read the records stored by an earlier one.  Run
    in a world that differs only in the stored records, it has the same
    outcome, makes the same requests, and on success leaves exactly the new
    list stored: the old records are replaced, not added to; on failure they
    stay. *)
Theorem listing_replaces_stored (fuel : nat) (old : list pydict) (w : World) :
  get_all_subscriptions fuel (set_subscriptions old w) =
  (fst (get_all_subscriptions fuel w),
   match fst (get_all_subscriptions fuel w) with
   | Ret _ => snd (get_all_subscriptions fuel w)
   | _ => set_subscriptions old (snd (get_all_subscriptions fuel w))
   end).
Proof.
  rewrite !get_all_subscriptions_eq. simpl access_token.
  rewrite pages_loop_set_subscriptions.
  destruct (pages_loop _ _ _ _ w) as [[l|e|] w1]; reflexivity.
Qed.

(** ** The resolver, whatever the network does *)

Lemma lookup_application_appId app_id w info w1 :
  lookup_application app_id w = (Ret info, w1) -> info_appId info = app_id.
Proof.
  rewrite lookup_application_eq.
  destruct (lookup_fetch app_id w) as [[r|e|] wf]; try discriminate.
  destruct (status_code r =? 200).
  - destruct (json_body r) as [data|]; [|discriminate].
    destruct (body_value data) as [[|sp l]|]; intros H; injection H as <- _;
      reflexivity.
  - intros H. injection H as <- _. reflexivity.
Qed.

(** The requests and waits of one resolution. *)
Lemma get_application_details_traffic app_id w :
  let w' := snd (get_application_details app_id w) in
  exists n waits,
    requests_log w'
    = requests_log w ++ repeat (lookup_request (access_token w) app_id) n
    /\ sleeps_log w' = sleeps_log w ++ waits
    /\ (n <= 9)%nat /\ (length waits <= 8)%nat
    /\ Forall (fun t => 0 <= t <= 120) waits.
Proof.
  cbv zeta. destruct (app_details w !! app_id) as [cached|] eqn:E.
  - rewrite (get_application_details_hit _ _ _ E).
    exists 0%nat, []. simpl. rewrite !app_nil_r.
    repeat split; auto; lia.
  - rewrite (get_application_details_miss _ _ E).
    pose proof (lookup_application_traffic app_id w) as [Hr Hsl].
    assert (Hw : snd (match lookup_application app_id w with
                      | (Raise _, w1) => (Ret (error_info app_id), w1)
                      | r => r
                      end) = snd (lookup_application app_id w)).
    { by destruct (lookup_application app_id w) as [[i|e|] w1]. }
    rewrite Hw, Hr, Hsl. unfold lookup_fetch.
    destruct (fetcher_trace service_principals_url
                (auth_headers (access_token w)) (Some (lookup_params app_id))
                default_max_retries w) as (n & waits & Ht & Hf & Hn & Hv).
    destruct (fetch_verdict_waits _ _ _ _ _ _ Hv Hn) as [H1 H2].
    rewrite Ht. simpl.
    exists n, waits. unfold default_max_retries in *.
    repeat split; auto; lia.
Qed.

(** X10: a resolution never fails its caller, whatever the network does: it
    returns a value.  It leaves the stored subscriptions alone, asks at most
    nine times, always the same lookup of the identifier, and sleeps at most
    eight times, each time between 0 and 120 seconds. *)
Theorem resolver_never_fails (app_id : string) (w : World) :
  exists info w',
    get_application_details app_id w = (Ret info, w')
    /\ subscriptions w' = subscriptions w
    /\ exists n waits,
         requests_log w'
         = requests_log w ++ repeat (lookup_request (access_token w) app_id) n
         /\ sleeps_log w' = sleeps_log w ++ waits
         /\ (n <= 9)%nat /\ (length waits <= 8)%nat
         /\ Forall (fun t => 0 <= t <= 120) waits.
Proof.
  destruct (get_application_details_total app_id w) as (info & w' & Hg & Hs).
  exists info, w'. split; [exact Hg|]. split; [exact Hs|].
  pose proof (get_application_details_traffic app_id w) as Ht.
  cbv zeta in Ht. by rewrite Hg in Ht.
Qed.

(** X11: a resolution only ever adds to the cache, and only under the
    identifier it resolves: the entries already stored are all still there
    with their values, and no other identifier gets an entry. *)
Theorem resolver_cache_grows (app_id : string) (w : World) :
  let w' := snd (get_application_details app_id w) in
  app_details w ⊆ app_details w'
  /\ forall k, k <> app_id -> app_details w' !! k = app_details w !! k.
Proof.
  cbv zeta. destruct (app_details w !! app_id) as [cached|] eqn:E.
  - rewrite (get_application_details_hit _ _ _ E). simpl. auto.
  - rewrite (get_application_details_miss _ _ E).
    destruct (lookup_application_cases app_id w)
      as [(info & w1 & -> & Hc & _)|(e & w1 & -> & Hc & _)]; simpl; rewrite Hc.
    + split; [by apply insert_subseteq|].
      intros k Hk. by apply lookup_insert_ne.
    + auto.
Qed.

Lemma resolver_keeps_keyed_aux app_id w info w' :
  get_application_details app_id w = (Ret info, w') ->
  cache_keyed w -> info_appId info = app_id /\ cache_keyed w'.
Proof.
  intros Hg Hk. destruct (app_details w !! app_id) as [cached|] eqn:E.
  - rewrite (get_application_details_hit _ _ _ E) in Hg.
    injection Hg as <- <-. split; [by apply Hk|exact Hk].
  - rewrite (get_application_details_miss _ _ E) in Hg.
    destruct (lookup_application_cases app_id w)
      as [(i & w1 & Hl & Hc & _)|(e & w1 & Hl & Hc & _)]; rewrite Hl in Hg;
      injection Hg as <- <-.
    + pose proof (lookup_application_appId _ _ _ _ Hl) as Hid.
      split; [exact Hid|]. intros k v. rewrite Hc.
      destruct (decide (app_id = k)) as [<-|Hne].
      * rewrite lookup_insert_eq. intros H. by injection H as <-.
      * rewrite lookup_insert_ne by exact Hne. apply Hk.
    + split; [reflexivity|]. intros k v. rewrite Hc. apply Hk.
Qed.

(** X12: when every entry of the cache is stored under its own application
    id, a resolution keeps it so, and the value it returns, from the cache,
    from the network or as a placeholder, carries the identifier that was
    asked for. *)
Theorem resolver_keeps_cache_keyed (app_id : string) (w : World) :
  cache_keyed w ->
  exists info w',
    get_application_details app_id w = (Ret info, w')
    /\ info_appId info = app_id
    /\ cache_keyed w'.
Proof.
  intros Hk.
  destruct (get_application_details_total app_id w) as (info & w' & Hg & _).
  exists info, w'. split; [exact Hg|].
  by apply (resolver_keeps_keyed_aux app_id w).
Qed.

Lemma resolver_keeps_cache_keyed_witness :
  exists info w',
    get_application_details "app-a" forbidden_lookup_world = (Ret info, w')
    /\ info_appId info = "app-a"
    /\ cache_keyed w'.
Proof.
  apply (resolver_keeps_cache_keyed "app-a" forbidden_lookup_world).
  intros k info H. simpl in H. rewrite lookup_empty in H. discriminate.
Defined.

(** X13: a lookup answered 200 at once.  With a body that does not decode
    the error placeholder is returned and nothing is stored.  With a body
    without ['value'], or with an empty one, the not-found placeholder is
    stored and returned.  Otherwise the first match alone counts: its
    display name, or "Unknown" when it has none, and its id, or [None], are
    stored and returned under the identifier asked for; further matches are
    ignored.  One request is made and no wait. *)
Theorem resolver_on_200 (app_id : string) (w : World) (r : Response) :
  app_details w !! app_id = None ->
  net w (length (requests_log w)) (lookup_request (access_token w) app_id)
    = Answer r ->
  status_code r = 200 ->
  let w1 := log_request (lookup_request (access_token w) app_id) w in
  get_application_details app_id w =
  match json_body r with
  | None => (Ret (error_info app_id), w1)
  | Some data =>
      match body_value data with
      | Some (sp :: _) =>
          let info := mkAppInfo (default "Unknown" (sp !! "displayName"))
                                app_id (sp !! "id") in
          (Ret info, cache_store app_id info w1)
      | _ => (Ret (not_found_info app_id),
              cache_store app_id (not_found_info app_id) w1)
      end
  end.
Proof.
  intros Hmiss Hnet H200 w1.
  rewrite (get_application_details_miss _ _ Hmiss), lookup_application_eq.
  unfold lookup_fetch, _make_graph_request_with_retry, default_max_retries.
  simpl retry_loop. unfold bind. rewrite attempt_eq. cbv zeta.
  unfold lookup_request in Hnet. rewrite Hnet, H200. simpl.
  rewrite H200. simpl.
  destruct (json_body r) as [data|]; [|reflexivity].
  destruct (body_value data) as [[|sp l]|]; reflexivity.
Qed.

Lemma resolver_on_200_witness :
  get_application_details "app-a" two_matches_world =
  (Ret (mkAppInfo "Unknown" "app-a" (Some "sp-9")),
   cache_store "app-a" (mkAppInfo "Unknown" "app-a" (Some "sp-9"))
     (log_request (lookup_request "token" "app-a") two_matches_world)).
Proof.
  apply (resolver_on_200 "app-a" two_matches_world
           (mkResponse 200 None ""
              (Some (mkBody (Some [nameless_principal; contoso_principal])
                            None)))).
  - reflexivity.
  - reflexivity.
  - reflexivity.
Defined.

(** ** The transcript filter in context *)

Lemma str_app_assoc (a b c : string) : (a +:+ b) +:+ c = a +:+ (b +:+ c).
Proof.
  induction a as [|x a IH]; [reflexivity|].
  by rewrite !str_app_cons, IH.
Qed.

(** X14: a resource path that matches the transcript filter still matches
    with anything put before it and after it. *)
Theorem transcript_match_in_context (pre resource post : string) :
  is_transcript_resource resource = true ->
  is_transcript_resource (pre +:+ resource +:+ post) = true.
Proof.
  rewrite !is_transcript_resource_spec.
  intros [(a & mid & b & -> & Hmid)|(a & b & ->)].
  - left. exists (pre +:+ a), mid, (b +:+ post). split; [|exact Hmid].
    by rewrite !str_app_assoc.
  - right. exists (pre +:+ a), (b +:+ post). by rewrite !str_app_assoc.
Qed.

Lemma transcript_match_in_context_witness :
  is_transcript_resource
    ("https://graph.microsoft.com/beta/" +:+ "users/1/onlineMeetings/2/Transcripts"
     +:+ "?$top=5") = true.
Proof.
  apply (transcript_match_in_context "https://graph.microsoft.com/beta/"
           "users/1/onlineMeetings/2/Transcripts" "?$top=5").
  reflexivity.
Defined.

(** ** The report and the cache *)

(** What a resolution returns is what the cache then holds for the
    identifier, or the error placeholder when it holds nothing. *)
Lemma get_application_details_cached app_id w info w1 :
  get_application_details app_id w = (Ret info, w1) ->
  default (error_info app_id) (app_details w1 !! app_id) = info.
Proof.
  intros Hg. destruct (app_details w !! app_id) as [cached|] eqn:E.
  - rewrite (get_application_details_hit _ _ _ E) in Hg.
    injection Hg as <- <-. by rewrite E.
  - rewrite (get_application_details_miss _ _ E) in Hg.
    destruct (lookup_application_cases app_id w)
      as [(i & w' & Hl & Hc & _)|(e & w' & Hl & Hc & _)]; rewrite Hl in Hg;
      injection Hg as <- <-.
    + by rewrite Hc, lookup_insert_eq.
    + by rewrite Hc, E.
Qed.

Lemma get_application_details_others app_id w k :
  k <> app_id ->
  app_details (snd (get_application_details app_id w)) !! k = app_details w !! k.
Proof.
  intros Hk. destruct (app_details w !! app_id) as [cached|] eqn:E.
  - by rewrite (get_application_details_hit _ _ _ E).
  - rewrite (get_application_details_miss _ _ E).
    destruct (lookup_application_cases app_id w)
      as [(i & w' & -> & Hc & _)|(e & w' & -> & Hc & _)]; simpl; rewrite Hc.
    + by apply lookup_insert_ne.
    + reflexivity.
Qed.

Lemma named_append w k e d : named w d -> named w (odict_append k e d).
Proof.
  unfold named. induction 1 as [|[k' g] d Hp Hf IH]; simpl; [constructor|].
  destruct (String.eqb k k'); constructor; auto.
Qed.

(** One pass of the loop keeps the names of the groups in step with the
    cache. *)
Lemma group_step_named sub d w d' w' :
  group_step sub d w = (Ret d', w') -> named w d -> named w' d'.
Proof.
  intros Hs Hn.
  destruct (group_step_cases sub d w) as (d1 & w1 & Hs' & _ & _ & Hd).
  cbv zeta in *. rewrite Hs in Hs'. injection Hs' as -> ->.
  apply named_append.
  destruct Hd as [(_ & -> & ->)|(Hmem & info & Hg & ->)]; [exact Hn|].
  apply Forall_app. split.
  - unfold named in *. rewrite List.Forall_forall in Hn |- *.
    intros [k g] Hin. specialize (Hn _ Hin). simpl in *.
    assert (Hk : k <> dict_get_default sub "applicationId" "Unknown").
    { intros ->. apply odict_mem_false_keys in Hmem. apply Hmem.
      unfold odict_keys. apply in_map_iff. by exists (dict_get_default sub "applicationId" "Unknown", g). }
    pose proof (get_application_details_others _ w k Hk) as Ho.
    rewrite Hg in Ho. simpl in Ho. by rewrite Ho.
  - constructor; [|constructor]. simpl.
    by rewrite (get_application_details_cached _ _ _ _ Hg).
Qed.

Lemma group_loop_named :
  forall subs d w d' w',
    group_loop subs d w = (Ret d', w') -> named w d -> named w' d'.
Proof.
  induction subs as [|sub rest IH]; intros d w d' w' Hl Hn.
  - simpl in Hl. injection Hl as <- <-. exact Hn.
  - rewrite group_loop_cons in Hl.
    destruct (group_step sub d w) as [[d1|e|] w1] eqn:Hs; try discriminate.
    apply (IH _ _ _ _ Hl). by apply (group_step_named sub d w).
Qed.

(** The groups, in their order of creation, once the loop is over. *)
Lemma group_loop_values subs w d' w' :
  group_loop subs [] w = (Ret d', w') ->
  odict_values d'
  = map (group_for (app_details w') subs) (first_seen (map owner subs)).
Proof.
  intros Hl.
  pose proof (group_loop_named subs [] w d' w' Hl (List.Forall_nil _)) as Hn.
  destruct (group_loop_grouped subs [] [] w grouped_nil) as (d2 & w2 & Hl2 & Hg).
  rewrite Hl in Hl2. injection Hl2 as <- <-. simpl in Hg.
  destruct Hg as [Hk Hf]. rewrite <- Hk. unfold odict_values, odict_keys.
  rewrite List.map_map. unfold named in Hn.
  clear Hk Hl. induction d' as [|[k g] d IH]; [reflexivity|].
  apply Forall_cons_iff in Hf as [[Hid Hrec] Hf].
  apply Forall_cons_iff in Hn as [[Hname Hsp] Hn].
  simpl in *. rewrite (IH Hn Hf). f_equal.
  unfold group_for. unfold holds_records in Hrec. rewrite Hid in Hrec.
  destruct g as [gid gname gsp gsubs]. simpl in *. by subst.
Qed.

Lemma generate_report_groups filter_transcripts w :
  exists report w',
    generate_report filter_transcripts w = (Ret report, w')
    /\ subscriptions w' = subscriptions w
    /\ applications report
       = sort_reverse subscription_count
           (map (group_for (app_details w') (subs_to_process filter_transcripts w))
                (first_seen (map owner (subs_to_process filter_transcripts w)))).
Proof.
  destruct (generate_report_eq filter_transcripts w) as (d & w' & Hl & Hs & Hr).
  eexists _, w'. split; [exact Hr|]. split; [exact Hs|]. simpl.
  by rewrite (group_loop_values _ _ _ _ Hl).
Qed.

(** X15: the groups of a report, exactly.  There is one group for each
    distinct applicationId of the records processed, created in the order in
    which the ids first occur; it holds the records of that id in input
    order and bears the display name and the service principal id that the
    cache holds for the id when the report is done, or those of the error
    placeholder when the cache holds nothing for it; the groups are then
    sorted by descending count, ties in their order of creation. *)
Theorem report_applications_exactly (filter_transcripts : bool) (w : World) :
  exists report w',
    generate_report filter_transcripts w = (Ret report, w')
    /\ applications report
       = sort_reverse subscription_count
           (map (group_for (app_details w') (subs_to_process filter_transcripts w))
                (first_seen (map owner (subs_to_process filter_transcripts w)))).
Proof.
  destruct (generate_report_groups filter_transcripts w)
    as (report & w' & Hr & _ & Ha).
  by exists report, w'.
Qed.

Lemma length_filter_le {A} (f : A -> bool) (l : list A) :
  (length (List.filter f l) <= length l)%nat.
Proof. induction l as [|x l IH]; simpl; [lia|]. destruct (f x); simpl; lia. Qed.

Lemma filter_all_true {A} (f : A -> bool) (l : list A) :
  Forall (fun x => f x = true) l -> List.filter f l = l.
Proof. induction 1 as [|x l Hx Hl IH]; simpl; [reflexivity|]. by rewrite Hx, IH. Qed.

Lemma filter_all_false {A} (f : A -> bool) (l : list A) :
  Forall (fun x => f x = false) l -> List.filter f l = [].
Proof. induction 1 as [|x l Hx Hl IH]; simpl; [reflexivity|]. by rewrite Hx. Qed.

(** X16: the counts of a report and the filter.  The total is the number of
    stored records and the transcript count the number of stored records that
    match, that is, whose resource path contains "transcript" in any mix of
    cases or "communications/onlineMeetings" literally, whether the report is
    filtered or not; the reported count is the total without the filter and
    the transcript count with it; and building a report leaves the stored
    records as they are. *)
Theorem report_counts_by_filter (w : World) :
  exists full w1 filtered w2,
    generate_report false w = (Ret full, w1)
    /\ generate_report true w = (Ret filtered, w2)
    /\ totalSubscriptions full = length (subscriptions w)
    /\ totalSubscriptions filtered = length (subscriptions w)
    /\ transcriptSubscriptions full = transcriptSubscriptions filtered
    /\ reportedSubscriptions full = totalSubscriptions full
    /\ reportedSubscriptions filtered = transcriptSubscriptions filtered
    /\ (transcriptSubscriptions full <= totalSubscriptions full)%nat
    /\ subscriptions w1 = subscriptions w
    /\ subscriptions w2 = subscriptions w
    /\ (exists matching,
          transcriptSubscriptions full = length matching
          /\ matching = List.filter is_transcript_subscription (subscriptions w)
          /\ (forall sub, In sub matching <->
                          In sub (subscriptions w)
                          /\ TranscriptMatch (resource_of sub))
          /\ (List.NoDup (subscriptions w) -> List.NoDup matching)
          /\ (Forall (fun sub => TranscriptMatch (resource_of sub))
                     (subscriptions w) ->
              matching = subscriptions w)
          /\ (Forall (fun sub => ~ TranscriptMatch (resource_of sub))
                     (subscriptions w) ->
              matching = [])).
Proof.
  destruct (generate_report_eq false w) as (d1 & w1 & _ & Hs1 & Hr1).
  destruct (generate_report_eq true w) as (d2 & w2 & _ & Hs2 & Hr2).
  eexists _, w1, _, w2. split; [exact Hr1|]. split; [exact Hr2|].
  simpl.
  assert (Hspec : forall sub,
             is_transcript_subscription sub = true
             <-> TranscriptMatch (resource_of sub)).
  { intros sub. apply is_transcript_resource_spec. }
  repeat split; auto; try apply length_filter_le.
  exists (List.filter is_transcript_subscription (subscriptions w)).
  split; [reflexivity|]. split; [reflexivity|]. split; [|split; [|split]].
  - intros sub. by rewrite filter_In, Hspec.
  - apply List.NoDup_filter.
  - intros Hall. apply filter_all_true.
    rewrite List.Forall_forall in Hall |- *. intros sub Hin.
    apply Hspec. by apply Hall.
  - intros Hnone. apply filter_all_false.
    rewrite List.Forall_forall in Hnone |- *. intros sub Hin.
    destruct (is_transcript_subscription sub) eqn:Es; [|reflexivity].
    exfalso. apply (Hnone sub Hin). by apply Hspec.
Qed.

Lemma length_le_sum (l : list nat) :
  Forall (fun n => (1 <= n)%nat) l -> (length l <= list_sum l)%nat.
Proof. induction 1; simpl; lia. Qed.

Lemma owned_by_nonempty k subs :
  In k (map owner subs) -> (1 <= length (owned_by k subs))%nat.
Proof.
  intros Hin. apply in_map_iff in Hin as (sub & Ho & Hin).
  assert (H : In sub (owned_by k subs)).
  { unfold owned_by. apply filter_In. split; [exact Hin|].
    rewrite Ho. apply String.eqb_refl. }
  destruct (owned_by k subs); [destruct H|simpl; lia].
Qed.

(** X17: in every report the groups have pairwise different application
    ids, every group holds at least one subscription, and so there are no
    more groups than records reported. *)
Theorem report_groups_distinct_nonempty (filter_transcripts : bool) (w : World) :
  exists report w',
    generate_report filter_transcripts w = (Ret report, w')
    /\ List.NoDup (map group_applicationId (applications report))
    /\ Forall (fun g => (1 <= subscription_count g)%nat) (applications report)
    /\ (uniqueApplications report <= reportedSubscriptions report)%nat.
Proof.
  destruct (generate_report_eq filter_transcripts w) as (d & w' & Hl & _ & Hr).
  destruct (group_loop_total (subs_to_process filter_transcripts w) [] w)
    as (d0 & w0 & Hl0 & _ & Ht).
  rewrite Hl in Hl0. injection Hl0 as <- <-.
  pose proof (group_loop_values _ _ _ _ Hl) as Hv.
  set (subs := subs_to_process filter_transcripts w) in *.
  pose proof (sort_reverse_perm subscription_count (odict_values d)) as Hp.
  assert (Hall : Forall (fun g => (1 <= subscription_count g)%nat)
                        (odict_values d)).
  { rewrite Hv. rewrite List.Forall_forall. intros g Hg.
    apply in_map_iff in Hg as (k & <- & Hk).
    unfold subscription_count, group_for. simpl. rewrite length_map.
    apply owned_by_nonempty. by apply first_seen_In. }
  eexists _, w'. split; [exact Hr|]. simpl. split; [|split].
  - apply (Permutation_NoDup (l := map group_applicationId (odict_values d))).
    + apply Permutation_map. by symmetry.
    + rewrite Hv, List.map_map. simpl. rewrite List.map_id.
      apply first_seen_NoDup.
  - rewrite List.Forall_forall in Hall |- *. intros g Hg. apply Hall.
    by apply (Permutation_in _ Hp).
  - unfold total_count in Ht. simpl in Ht.
    rewrite <- Ht, <- (length_map snd d). fold (odict_values d).
    rewrite <- (length_map subscription_count (odict_values d)).
    apply length_le_sum. by apply Forall_map.
Qed.

(** With every application of the records already in the cache the loop
    leaves the world as it is. *)
Lemma group_loop_silent :
  forall subs d w,
    (forall sub, In sub subs -> is_Some (app_details w !! owner sub)) ->
    exists d', group_loop subs d w = (Ret d', w).
Proof.
  induction subs as [|sub rest IH]; intros d w Hc.
  - by exists d.
  - rewrite group_loop_cons.
    destruct (group_step_cases sub d w) as (d1 & w1 & Hs & _ & _ & Hd).
    cbv zeta in *. rewrite Hs.
    assert (Hw : w1 = w).
    { destruct Hd as [(_ & _ & ->)|(_ & info & Hg & _)]; [reflexivity|].
      destruct (Hc sub ltac:(by left)) as [cached Hcached].
      unfold owner in Hcached.
      rewrite (get_application_details_hit _ _ _ Hcached) in Hg.
      by injection Hg. }
    subst w1. apply IH. intros s Hin. apply Hc. by right.
Qed.

(** X18: when the cache already holds an entry for the application of every
    record to be processed, building the report changes nothing in the
    world: no request, no wait, the cache as it was. *)
Theorem report_from_cache_is_silent (filter_transcripts : bool) (w : World) :
  (forall sub, In sub (subs_to_process filter_transcripts w) ->
               is_Some (app_details w !! owner sub)) ->
  exists report, generate_report filter_transcripts w = (Ret report, w).
Proof.
  intros Hc.
  destruct (generate_report_eq filter_transcripts w) as (d & w' & Hl & _ & Hr).
  destruct (group_loop_silent _ [] w Hc) as (d' & Hl').
  rewrite Hl in Hl'. injection Hl' as _ ->. eauto.
Qed.

Lemma report_from_cache_is_silent_witness :
  exists report,
    generate_report false
      (set_app_details {[ "app-a" := not_found_info "app-a";
                          "app-b" := not_found_info "app-b" ]} listed_world)
    = (Ret report,
       set_app_details {[ "app-a" := not_found_info "app-a";
                          "app-b" := not_found_info "app-b" ]} listed_world).
Proof.
  apply (report_from_cache_is_silent false
           (set_app_details {[ "app-a" := not_found_info "app-a";
                               "app-b" := not_found_info "app-b" ]}
                            listed_world)).
  intros sub Hin. simpl in Hin.
  destruct Hin as [<-|[<-|[<-|[]]]]; vm_compute; eauto.
Defined.

(** X19: a report built again.  When, after a report, the cache holds an
    entry for the application of every record processed, which is the case
    when no lookup ended in the error placeholder, then building the report
    once more with the same flag asks the network nothing and yields the same
    groups and the same counts. *)
Theorem report_again_is_same
        (filter_transcripts : bool) (w w1 : World) (first : Report) :
  generate_report filter_transcripts w = (Ret first, w1) ->
  (forall sub, In sub (subs_to_process filter_transcripts w) ->
               is_Some (app_details w1 !! owner sub)) ->
  exists second,
    generate_report filter_transcripts w1 = (Ret second, w1)
    /\ applications second = applications first
    /\ totalSubscriptions second = totalSubscriptions first
    /\ transcriptSubscriptions second = transcriptSubscriptions first
    /\ reportedSubscriptions second = reportedSubscriptions first
    /\ uniqueApplications second = uniqueApplications first.
Proof.
  intros Hfirst Hc.
  destruct (generate_report_eq filter_transcripts w) as (d & w' & Hl & Hs & Hr).
  rewrite Hfirst in Hr. injection Hr as -> ->.
  assert (Hsubs : subs_to_process filter_transcripts w'
                  = subs_to_process filter_transcripts w).
  { unfold subs_to_process. by rewrite Hs. }
  destruct (generate_report_eq filter_transcripts w') as (d2 & w2 & Hl2 & Hs2 & Hr2).
  rewrite Hsubs in Hl2, Hr2.
  destruct (group_loop_silent _ [] w' Hc) as (d3 & Hl3).
  rewrite Hl2 in Hl3. injection Hl3 as <- ->.
  eexists. split; [exact Hr2|]. simpl.
  pose proof (group_loop_values _ _ _ _ Hl) as Hv.
  pose proof (group_loop_values _ _ _ _ Hl2) as Hv2.
  rewrite Hs. repeat split; try reflexivity.
  - by rewrite Hv, Hv2.
  - unfold odict_values in Hv, Hv2.
    rewrite <- (length_map snd d2), <- (length_map snd d). by rewrite Hv, Hv2.
Qed.

Lemma report_again_is_same_witness :
  exists second,
    generate_report false (snd (generate_report false listed_world))
    = (Ret second, snd (generate_report false listed_world))
    /\ applications second = applications listed_report
    /\ totalSubscriptions second = totalSubscriptions listed_report
    /\ transcriptSubscriptions second = transcriptSubscriptions listed_report
    /\ reportedSubscriptions second = reportedSubscriptions listed_report
    /\ uniqueApplications second = uniqueApplications listed_report.
Proof.
  apply (report_again_is_same false listed_world).
  - vm_compute. reflexivity.
  - intros sub Hin. simpl in Hin.
    destruct Hin as [<-|[<-|[<-|[]]]]; vm_compute; eauto.
Defined.

(** ** What a report costs and what it lists *)

(** Each group created costs at most nine requests and eight waits. *)
Lemma group_loop_budget :
  forall subs d w d' w',
    group_loop subs d w = (Ret d', w') ->
    (length d <= length d')%nat
    /\ (length (requests_log w') + 9 * length d
        <= length (requests_log w) + 9 * length d')%nat
    /\ (length (sleeps_log w') + 8 * length d
        <= length (sleeps_log w) + 8 * length d')%nat.
Proof.
  induction subs as [|sub rest IH]; intros d w d' w' Hl.
  - simpl in Hl. injection Hl as <- <-. lia.
  - rewrite group_loop_cons in Hl.
    destruct (group_step_cases sub d w) as (d1 & w1 & Hs & _ & _ & Hd).
    cbv zeta in *. rewrite Hs in Hl.
    destruct (IH _ _ _ _ Hl) as (H1 & H2 & H3).
    rewrite odict_append_length in H1, H2, H3.
    destruct Hd as [(_ & -> & ->)|(_ & info & Hg & ->)]; [lia|].
    pose proof (get_application_details_traffic
                  (dict_get_default sub "applicationId" "Unknown") w) as Ht.
    cbv zeta in Ht. rewrite Hg in Ht. simpl in Ht.
    destruct Ht as (n & waits & Hr & Hsl & Hn & Hw & _).
    rewrite length_app in H1, H2, H3. simpl in H1, H2, H3.
    rewrite Hr in H2. rewrite Hsl in H3.
    rewrite length_app, repeat_length in H2. rewrite length_app in H3. lia.
Qed.

(** X20: what a report costs.  Building a report issues at most nine
    requests and sleeps at most eight times for each application group of
    the report; the records themselves cost nothing. *)
Theorem report_request_budget (filter_transcripts : bool) (w : World) :
  exists report w',
    generate_report filter_transcripts w = (Ret report, w')
    /\ (length (requests_log w')
        <= length (requests_log w) + 9 * uniqueApplications report)%nat
    /\ (length (sleeps_log w')
        <= length (sleeps_log w) + 8 * uniqueApplications report)%nat.
Proof.
  destruct (generate_report_eq filter_transcripts w) as (d & w' & Hl & _ & Hr).
  destruct (group_loop_budget _ _ _ _ _ Hl) as (_ & H2 & H3).
  eexists _, w'. split; [exact Hr|]. simpl in *. lia.
Qed.

(** X21: a filtered report lists transcript subscriptions only: every
    subscription of every group has a resource, and the resource matches the
    transcript filter. *)
Theorem filtered_report_entries_match (w : World) :
  exists report w',
    generate_report true w = (Ret report, w')
    /\ forall g e,
         In g (applications report) ->
         In e (group_subscriptions g) ->
         exists resource,
           entry_resource e = Some resource
           /\ is_transcript_resource resource = true.
Proof.
  destruct (generate_report_groups true w) as (report & w' & Hr & _ & Ha).
  exists report, w'. split; [exact Hr|].
  intros g e Hg He. rewrite Ha in Hg.
  apply (Permutation_in _ (sort_reverse_perm _ _)) in Hg.
  apply in_map_iff in Hg as (k & <- & _). simpl in He.
  apply in_map_iff in He as (sub & <- & Hsub).
  unfold owned_by in Hsub. apply filter_In in Hsub as [Hsub _].
  unfold subs_to_process in Hsub. apply filter_In in Hsub as [_ Hm].
  unfold is_transcript_subscription, dict_get_default in Hm. simpl.
  destruct (sub !! "resource") as [resource|]; [by exists resource|].
  simpl in Hm. vm_compute in Hm. discriminate.
Qed.

Lemma filter_neq_id (x : string) (l : list string) :
  ~ In x l -> List.filter (fun y => negb (String.eqb x y)) l = l.
Proof.
  induction l as [|a l IH]; simpl; [reflexivity|]. intros H.
  destruct (String.eqb_spec x a) as [->|_];
    [exfalso; apply H; by left|]. simpl.
  rewrite IH; [reflexivity|]. intros Hin. apply H. by right.
Qed.

(** Taking one class out of a partition by distinct keys. *)
Lemma concat_take_out {A} (g : string -> list A) (x : string) (l : list string) :
  List.NoDup l ->
  (~ In x l -> g x = []) ->
  Permutation
    (g x ++ concat (map g (List.filter (fun y => negb (String.eqb x y)) l)))
    (concat (map g l)).
Proof.
  induction 1 as [|a l Ha Hl IH]; intros Hx; simpl.
  - rewrite Hx by tauto. reflexivity.
  - destruct (String.eqb_spec x a) as [->|Hne]; simpl.
    + by rewrite filter_neq_id.
    + rewrite Permutation_app_swap_app. apply Permutation_app_head.
      apply IH. intros Hn. apply Hx.
      intros [E|E]; [apply Hne; by symmetry|by apply Hn].
Qed.

Lemma owned_by_cons_groups s rest :
  concat (map (fun k => owned_by k (s :: rest))
              (first_seen (map owner (s :: rest))))
  = s :: owned_by (owner s) rest
      ++ concat (map (fun k => owned_by k rest)
                     (List.filter (fun y => negb (String.eqb (owner s) y))
                                  (first_seen (map owner rest)))).
Proof.
  change (first_seen (map owner (s :: rest)))
    with (owner s :: List.filter (fun y => negb (String.eqb (owner s) y))
                                 (first_seen (map owner rest))).
  rewrite List.map_cons. change (concat (?x :: ?l)) with (x ++ concat l).
  assert (H1 : owned_by (owner s) (s :: rest) = s :: owned_by (owner s) rest).
  { unfold owned_by. simpl. by rewrite String.eqb_refl. }
  rewrite H1. simpl. f_equal. f_equal. f_equal.
  apply map_ext_in. intros k Hk. apply filter_In in Hk as [_ Hk].
  unfold owned_by. simpl.
  destruct (String.eqb (owner s) k); [discriminate|reflexivity].
Qed.

(** The records, taken application by application in the order of first
    occurrence, are the records. *)
Lemma owned_by_partition subs :
  Permutation
    (concat (map (fun k => owned_by k subs) (first_seen (map owner subs))))
    subs.
Proof.
  induction subs as [|s rest IH]; [reflexivity|].
  rewrite owned_by_cons_groups. apply perm_skip.
  etransitivity; [|exact IH].
  apply (concat_take_out (fun k => owned_by k rest) (owner s)
           (first_seen (map owner rest)) (first_seen_NoDup _)).
  intros Hn. apply owned_by_nil. by rewrite <- first_seen_In.
Qed.

Lemma Permutation_concat_lists {A} (l1 l2 : list (list A)) :
  Permutation l1 l2 -> Permutation (concat l1) (concat l2).
Proof.
  induction 1; simpl.
  - reflexivity.
  - by apply Permutation_app_head.
  - rewrite !app_assoc. apply Permutation_app_tail, Permutation_app_comm.
  - etransitivity; eassumption.
Qed.

(** X22: a report lists every record it processed exactly once: the
    subscriptions of its groups, put together, are the entries of the
    records processed, up to order; no record is dropped and none is listed
    twice. *)
Theorem report_lists_every_record_once (filter_transcripts : bool) (w : World) :
  exists report w',
    generate_report filter_transcripts w = (Ret report, w')
    /\ Permutation
         (concat (map group_subscriptions (applications report)))
         (map entry_of (subs_to_process filter_transcripts w)).
Proof.
  destruct (generate_report_groups filter_transcripts w)
    as (report & w' & Hr & _ & Ha).
  exists report, w'. split; [exact Hr|]. rewrite Ha.
  set (subs := subs_to_process filter_transcripts w).
  rewrite (Permutation_concat_lists _ _
             (Permutation_map group_subscriptions
                (sort_reverse_perm subscription_count _))).
  rewrite List.map_map. simpl.
  rewrite <- (owned_by_partition subs) at 2.
  rewrite List.concat_map, List.map_map. reflexivity.
Qed.
